(** * File automation: organizer and data cleaner

    A shallow embedding of [utils/file_utils.py], [services/file_organizer.py]
    and [services/data_cleaner.py], followed by the properties of the
    unique-path resolver, the organizer loop and the cleaning pipeline. *)

From Stdlib Require Import ZArith QArith Qcanon Ascii String.
From stdpp Require Import base tactics option list sorting numbers strings pretty gmap.

Local Open Scope string_scope.
Local Open Scope list_scope.
Local Open Scope Z_scope.

(** ** Strings *)

(** [str.rfind('.')]: the index of the last dot, [None] standing for [-1]. *)
Fixpoint rfind_dot (s : string) : option nat :=
  match s with
  | EmptyString => None
  | String c s' =>
      match rfind_dot s' with
      | Some i => Some (S i)
      | None => if Ascii.eqb c "."%char then Some 0%nat else None
      end
  end.

(** The test [0 < i < len(name) - 1] shared by [PurePath.suffix] and
    [PurePath.stem] (CPython 3.8 to 3.13): a leading dot and a trailing dot
    do not start an extension. *)
Definition split_point (name : string) : option nat :=
  match rfind_dot name with
  | Some i =>
      if bool_decide (0 < i ∧ i < String.length name - 1)%nat then Some i else None
  | None => None
  end.

Definition suffix_of (name : string) : string :=
  match split_point name with
  | Some i => String.substring i (String.length name - i) name
  | None => ""
  end.

Definition stem_of (name : string) : string :=
  match split_point name with
  | Some i => String.substring 0 i name
  | None => name
  end.

(** [str.lower()] on the ASCII letters; other bytes are left alone. *)
Definition lower_ascii (c : ascii) : ascii :=
  let n := Ascii.nat_of_ascii c in
  if bool_decide (65 ≤ n ∧ n ≤ 90)%nat then Ascii.ascii_of_nat (n + 32) else c.

Fixpoint lower (s : string) : string :=
  match s with
  | EmptyString => EmptyString
  | String c s' => String (lower_ascii c) (lower s')
  end.

(** ** Paths and the file system

    A path is the list of its components from the root.  Names handed to
    [</>] are single components (what [Path.name] and [iterdir] produce): not
    empty, without a separator, and neither [.] nor [..]. *)

Abbreviation path := (list string).

Definition joinpath (p : path) (name : string) : path := p ++ [name].
Infix "</>" := joinpath (at level 40, left associativity).

(** [PurePath.name], [PurePath.stem], [PurePath.suffix]. *)
Definition path_name (p : path) : string := List.last p "".
Definition path_stem (p : path) : string := stem_of (path_name p).
Definition path_suffix (p : path) : string := suffix_of (path_name p).

(** [str(path)], used in log lines only. *)
Definition path_str (p : path) : string := "/" +:+ String.concat "/" p.

Inductive node :=
  | File (content : string)
  | Dir.

Global Instance node_eq_dec : EqDecision node.
Proof. solve_decision. Defined.

(** The state of the file system: which paths exist, and as what. *)
Abbreviation filesystem := (gmap path node).

Definition path_exists (fs : filesystem) (p : path) : bool :=
  match fs !! p with Some _ => true | None => false end.

Definition is_dir (fs : filesystem) (p : path) : bool :=
  match fs !! p with Some Dir => true | _ => false end.

Definition is_file (fs : filesystem) (p : path) : bool :=
  match fs !! p with Some (File _) => true | _ => false end.

(** ** [FileOperations.get_unique_filename] *)

(** The name tried at suffix [i]: [f"{stem}_{i}{suffix}"]. *)
Definition numbered_name (stem : string) (i : Z) (suffix : string) : string :=
  stem +:+ "_" +:+ pretty i +:+ suffix.

Definition final_name (stem suffix : string) : string :=
  stem +:+ "_final" +:+ suffix.

(** The loop [for i in range(1, max_suffix + 1)], entered at [i] with [n]
    iterations left; [None] when the range is used up. *)
Fixpoint first_free (fs : filesystem) (directory : path) (stem suffix : string)
    (i : Z) (n : nat) : option path :=
  match n with
  | O => None
  | S n' =>
      let new_path := directory </> numbered_name stem i suffix in
      if negb (path_exists fs new_path) then Some new_path
      else first_free fs directory stem suffix (i + 1) n'
  end.

Definition get_unique_filename (fs : filesystem) (directory : path)
    (filename : string) (max_suffix : Z) : path :=
  let base_path := directory </> filename in
  if negb (path_exists fs base_path) then base_path
  else
    let stem := path_stem base_path in
    let suffix := path_suffix base_path in
    match first_free fs directory stem suffix 1 (Z.to_nat max_suffix) with
    | Some new_path => new_path
    | None => directory </> final_name stem suffix
    end.

(** The paths the resolver can return besides the desired one, in terms of
    the file name alone. *)
Definition candidate (directory : path) (filename : string) (i : Z) : path :=
  directory </> numbered_name (stem_of filename) i (suffix_of filename).

Definition fallback (directory : path) (filename : string) : path :=
  directory </> final_name (stem_of filename) (suffix_of filename).

(** A small directory used in the examples: [/d] holds [a.txt], [a_1.txt]
    and [a_2.txt]. *)
Definition fs_numbered : filesystem :=
  list_to_map [ (["d"], Dir);
                (["d"; "a.txt"], File "zero");
                (["d"; "a_1.txt"], File "one");
                (["d"; "a_2.txt"], File "two") ].

(** The same directory with [a_final.txt] present as well. *)
Definition fs_full : filesystem :=
  <[ ["d"; "a_final.txt"] := File "last" ]> fs_numbered.


(** ** The world: file system and log

    [LoggerService] is a process-wide singleton; its observable effect is
    the sequence of calls made to it. *)

Inductive level := INFO | ERROR | WARNING | DEBUG.

Global Instance level_eq_dec : EqDecision level.
Proof. solve_decision. Defined.

Record world := World {
  w_fs : filesystem;
  w_log : list (level * string)
}.

Inductive exn :=
  | FileExistsError (p : path)
  | FileNotFoundError (p : path)
  | NotADirectoryError (p : path)
  | IsADirectoryError (p : path)
  | ShutilError (p : path)
  | LoadError (p : path).

Inductive outcome (A : Type) :=
  | Return (a : A)
  | Raise (e : exn).
Arguments Return {A} a.
Arguments Raise {A} e.

(** State and exceptions: a computation reads and updates the world and
    either returns a value or raises. *)
Definition M (A : Type) : Type := world → outcome A * world.

Definition ret {A} (a : A) : M A := λ w, (Return a, w).

Definition bind {A B} (m : M A) (k : A → M B) : M B :=
  λ w, match m w with
       | (Return a, w') => k a w'
       | (Raise e, w') => (Raise e, w')
       end.

Definition raise {A} (e : exn) : M A := λ w, (Raise e, w).

(** [try: m except Exception: h]. *)
Definition try_except {A} (m : M A) (h : exn → M A) : M A :=
  λ w, match m w with
       | (Return a, w') => (Return a, w')
       | (Raise e, w') => h e w'
       end.

Definition get_fs : M filesystem := λ w, (Return (w_fs w), w).

Definition put_fs (fs : filesystem) : M unit :=
  λ w, (Return tt, World fs (w_log w)).

Definition log (l : level) (msg : string) : M unit :=
  λ w, (Return tt, World (w_fs w) (w_log w ++ [(l, msg)])).

(** A file-system operation that returns the new state or raises. *)
Definition lift_fs (op : filesystem → outcome filesystem) : M unit :=
  λ w, match op (w_fs w) with
       | Return fs' => (Return tt, World fs' (w_log w))
       | Raise e => (Raise e, w)
       end.

Notation "x <- m ;; k" := (bind m (λ x, k))
  (at level 100, m at next level, right associativity).
Notation "m ;;; k" := (bind m (λ _, k))
  (at level 100, right associativity).

(** [for x in l: s = body(x, s)], stopping at the first exception. *)
Fixpoint for_each {A S} (l : list A) (body : A → S → M S) (s : S) : M S :=
  match l with
  | [] => ret s
  | x :: l' => s' <- body x s ;; for_each l' body s'
  end.

(** ** File-system calls *)

Definition parent (p : path) : path := removelast p.

(** [os.mkdir]. *)
Definition os_mkdir (fs : filesystem) (p : path) : outcome filesystem :=
  if path_exists fs p then Raise (FileExistsError p)
  else match fs !! parent p with
       | None => Raise (FileNotFoundError p)
       | Some (File _) => Raise (NotADirectoryError p)
       | Some Dir => Return (<[p := Dir]> fs)
       end.

(** [Path.mkdir(parents=True, exist_ok=True)]: try the directory itself,
    create the parents first when they are missing, and accept an existing
    directory.  [fuel] bounds the climb towards the root. *)
Fixpoint mkdir_parents (fuel : nat) (fs : filesystem) (p : path) : outcome filesystem :=
  match os_mkdir fs p with
  | Return fs' => Return fs'
  | Raise (FileNotFoundError q) =>
      match fuel with
      | O => Raise (FileNotFoundError q)
      | S fuel' =>
          if bool_decide (parent p = p) then Raise (FileNotFoundError q)
          else match mkdir_parents fuel' fs (parent p) with
               | Return fs1 =>
                   match os_mkdir fs1 p with
                   | Return fs2 => Return fs2
                   | Raise e => if is_dir fs1 p then Return fs1 else Raise e
                   end
               | Raise e => Raise e
               end
      end
  | Raise e => if is_dir fs p then Return fs else Raise e
  end.

(** [FileOperations.ensure_directory]. *)
Definition ensure_directory (p : path) : M unit :=
  lift_fs (λ fs, mkdir_parents (length p) fs p).

(** The entries below [directory]: [iterdir] yields the immediate ones,
    [rglob('*')] all of them.  The order in which the operating system lists
    them is not fixed; the model lists them in the order of the map. *)
Definition iterdir (fs : filesystem) (directory : path) : list path :=
  filter (λ p, p ≠ [] ∧ parent p = directory) ((map_to_list fs).*1).

Definition rglob (fs : filesystem) (directory : path) : list path :=
  filter (λ p, p ≠ directory ∧ directory `prefix_of` p) ((map_to_list fs).*1).

(** [FileOperations.get_files_in_directory]. *)
Definition get_files_in_directory (fs : filesystem) (directory : path)
    (recursive : bool) : list path :=
  if negb (path_exists fs directory) || negb (is_dir fs directory) then []
  else if recursive then filter (λ f, is_file fs f = true) (rglob fs directory)
  else filter (λ f, is_file fs f = true) (iterdir fs directory).

(** [os.rename] of a regular file: an existing file at the destination is
    replaced.  The organizer moves regular files only; renaming a directory
    is reported as an error here. *)
Definition os_rename (fs : filesystem) (src dst : path) : outcome filesystem :=
  match fs !! src with
  | Some (File content) =>
      match fs !! dst with
      | Some Dir => Raise (IsADirectoryError dst)
      | _ =>
          if is_dir fs (parent dst)
          then Return (<[dst := File content]> (delete src fs))
          else Raise (FileNotFoundError dst)
      end
  | Some Dir => Raise (IsADirectoryError src)
  | None => Raise (FileNotFoundError src)
  end.

(** [shutil.move]: a destination that is an existing directory receives the
    source under its own name, unless that name is taken there. *)
Definition shutil_move (fs : filesystem) (src dst : path) : outcome filesystem :=
  if is_dir fs dst then
    let real_dst := dst </> path_name src in
    if path_exists fs real_dst then Raise (ShutilError real_dst)
    else os_rename fs src real_dst
  else os_rename fs src dst.

(** [FileOperations.move_file]: any exception becomes [False]. *)
Definition move_file (source destination : path) : M bool :=
  try_except
    (lift_fs (λ fs, shutil_move fs source destination) ;;; ret true)
    (λ _, ret false).

(** ** Configuration *)

Record AppConfig := {
  file_extensions : list (string * list string);
  log_file : path;
  max_duplicate_suffix : Z
}.

Definition get_default : AppConfig := {|
  file_extensions :=
    [ ("documents", [".pdf"; ".doc"; ".docx"; ".txt"; ".odt"]);
      ("images", [".jpg"; ".jpeg"; ".png"; ".gif"; ".bmp"; ".svg"]);
      ("videos", [".mp4"; ".avi"; ".mkv"; ".mov"; ".flv"]);
      ("audio", [".mp3"; ".wav"; ".flac"; ".aac"; ".ogg"]);
      ("archives", [".zip"; ".rar"; ".7z"; ".tar"; ".gz"]);
      ("spreadsheets", [".xls"; ".xlsx"; ".csv"]);
      ("code", [".py"; ".java"; ".js"; ".go"; ".cpp"; ".c"; ".h"]) ];
  log_file := ["automation.log"];
  max_duplicate_suffix := 9999
|}.

(** ** [FileOrganizer] *)

(** [_build_extension_map]: later entries overwrite earlier ones. *)
Definition _build_extension_map (config : AppConfig) : gmap string string :=
  foldl (λ extension_map '(category, extensions),
           foldl (λ extension_map ext, <[lower ext := category]> extension_map)
                 extension_map extensions)
        ∅ (file_extensions config).

(** [_get_file_category]. *)
Definition _get_file_category (config : AppConfig) (file_path : path) : string :=
  let extension := lower (path_suffix file_path) in
  default "other" (_build_extension_map config !! extension).

(** [sum(stats.values())]. *)
Definition stats_total (stats : gmap string Z) : Z :=
  map_fold (λ _ count total, count + total) 0 stats.

(** [_log_statistics]; the categories are listed in sorted order. *)
Definition _log_statistics (stats : gmap string Z) : M unit :=
  log INFO ("Organization complete. Total files moved: " +:+ pretty (stats_total stats)) ;;;
  for_each (merge_sort String.le ((map_to_list stats).*1))
    (λ category _,
       log INFO ("  " +:+ category +:+ ": " +:+
                 pretty (default 0 (stats !! category)) +:+ " files"))
    tt.

(** The body of the loop of [organize_directory], on the loop variables
    [stats] and [processed_files]. *)
Definition organize_file (config : AppConfig) (directory file_path : path)
    (vars : gmap string Z * gset path) : M (gmap string Z * gset path) :=
  let '(stats, processed_files) := vars in
  if bool_decide (file_path ∈ processed_files) then ret vars
  else
    let category := _get_file_category config file_path in
    if bool_decide (category = "other") then
      log DEBUG ("Skipping uncategorized file: " +:+ path_name file_path) ;;;
      ret vars
    else
      let target_dir := directory </> category in
      ensure_directory target_dir ;;;
      fs <- get_fs ;;
      let target_path :=
        get_unique_filename fs target_dir (path_name file_path)
                            (max_duplicate_suffix config) in
      moved <- move_file file_path target_path ;;
      if moved : bool then
        log INFO ("Moved " +:+ path_name file_path +:+ " -> " +:+ category +:+
                  "/" +:+ path_name target_path) ;;;
        ret (<[category := default 0 (stats !! category) + 1]> stats,
             {[file_path]} ∪ processed_files)
      else
        log ERROR ("Failed to move " +:+ path_name file_path) ;;;
        ret vars.

(** [FileOrganizer.organize_directory]. *)
Definition organize_directory (config : AppConfig) (directory : path)
    : M (gmap string Z) :=
  fs <- get_fs ;;
  if negb (path_exists fs directory) || negb (is_dir fs directory) then
    log ERROR ("Directory does not exist: " +:+ path_str directory) ;;;
    ret ∅
  else
    log INFO ("Starting file organization in: " +:+ path_str directory) ;;;
    fs <- get_fs ;;
    let files := get_files_in_directory fs directory false in
    vars <- for_each files (organize_file config directory) (∅, ∅) ;;
    _log_statistics vars.1 ;;;
    ret vars.1.

(** ** Tables

    A [DataFrame] is an ordered sequence of named columns.  A column has one
    kind: numeric ([float64]; the absent marker is NaN) or text ([object]).
    Numeric values are modelled as exact rationals, so rounding, infinities
    and overflow of [float64] are outside the model. *)

Inductive column :=
  | NumCol (data : list (option Qc))
  | ObjCol (data : list (option string)).

Inductive cell :=
  | NumCell (v : option Qc)
  | ObjCell (v : option string).

Global Instance cell_eq_dec : EqDecision cell.
Proof. solve_decision. Defined.

Global Instance column_eq_dec : EqDecision column.
Proof. solve_decision. Defined.

Abbreviation DataFrame := (list (string * column)).
Abbreviation row := (list cell).

Definition col_cells (c : column) : list cell :=
  match c with
  | NumCol data => NumCell <$> data
  | ObjCol data => ObjCell <$> data
  end.

(** [len(df)]: the length of the index. *)
Definition len (df : DataFrame) : nat :=
  match df with
  | [] => 0
  | (_, c) :: _ => length (col_cells c)
  end.

(** All columns have the length of the index. *)
Definition rectangular (df : DataFrame) : Prop :=
  Forall (λ nc, length (col_cells nc.2) = len df) df.

(** The rows of a frame, each a list of cells in column order. *)
Fixpoint rows_of (df : DataFrame) : list row :=
  match df with
  | [] => []
  | (_, c) :: df' =>
      match df' with
      | [] => (λ x, [x]) <$> col_cells c
      | _ => zip_with cons (col_cells c) (rows_of df')
      end
  end.

(** Boolean indexing: keep the positions where the mask is [True]. *)
Fixpoint select {A} (mask : list bool) (l : list A) : list A :=
  match mask, l with
  | b :: mask', x :: l' => if b then x :: select mask' l' else select mask' l'
  | _, _ => []
  end.

Definition col_select (mask : list bool) (c : column) : column :=
  match c with
  | NumCol data => NumCol (select mask data)
  | ObjCol data => ObjCol (select mask data)
  end.

Definition df_select (mask : list bool) (df : DataFrame) : DataFrame :=
  (λ nc, (nc.1, col_select mask nc.2)) <$> df.

(** [mask.sum()]. *)
Definition count_true (mask : list bool) : Z :=
  Z.of_nat (length (filter (λ b, b = true) mask)).

(** [isnull()] of a column, and [df.isnull().sum().sum()]. *)
Definition isnull {A} (data : list (option A)) : list bool :=
  (λ x, match x with None => true | Some _ => false end) <$> data.

Definition col_isnull (c : column) : list bool :=
  match c with
  | NumCol data => isnull data
  | ObjCol data => isnull data
  end.

Definition isnull_sum_sum (df : DataFrame) : Z :=
  foldr (λ nc total, count_true (col_isnull nc.2) + total) 0 df.

(** [df.duplicated()]: a row is marked when an equal row occurs before it;
    absent cells of the same column compare equal. *)
Fixpoint duplicated_from (seen : list row) (rows : list row) : list bool :=
  match rows with
  | [] => []
  | r :: rows' => bool_decide (r ∈ seen) :: duplicated_from (r :: seen) rows'
  end.

Definition duplicated (df : DataFrame) : list bool :=
  duplicated_from [] (rows_of df).

(** [df.drop_duplicates()]: [df[~df.duplicated()]]. *)
Definition drop_duplicates (df : DataFrame) : DataFrame :=
  df_select (negb <$> duplicated df) df.

(** The values of a column that are present. *)
Definition present {A} (data : list (option A)) : list A := omap id data.

(** [Series.median()]: absent cells are skipped; NaN for no value at all. *)
Definition median (data : list (option Qc)) : option Qc :=
  let values := merge_sort Qcle (present data) in
  let n := length values in
  if bool_decide (n = 0)%nat then None
  else if Nat.odd n then values !! (n / 2)%nat
  else
    match values !! (n / 2 - 1)%nat, values !! (n / 2)%nat with
    | Some a, Some b => Some ((a + b) / 2)%Qc
    | _, _ => None
    end.

(** [Series.fillna(value)]; filling with NaN changes nothing. *)
Definition fillna {A} (value : option A) (data : list (option A)) : list (option A) :=
  (λ x, match x with Some a => Some a | None => value end) <$> data.

Definition value_count (v : string) (values : list string) : nat :=
  length (filter (λ x, x = v) values).

(** [Series.mode()]: the most frequent present values, in sorted order. *)
Definition mode (data : list (option string)) : list string :=
  let values := present data in
  let top := max_list ((λ v, value_count v values) <$> values) in
  merge_sort String.le
    (remove_dups (filter (λ v, value_count v values = top) values)).

(** [str.strip()] on the ASCII whitespace characters. *)
Definition is_space (c : ascii) : bool :=
  let n := Ascii.nat_of_ascii c in
  bool_decide ((9 ≤ n ∧ n ≤ 13) ∨ (28 ≤ n ∧ n ≤ 32))%nat.

Fixpoint lstrip (s : string) : string :=
  match s with
  | EmptyString => EmptyString
  | String c s' => if is_space c then lstrip s' else s
  end.

Definition rstrip (s : string) : string := String.rev (lstrip (String.rev s)).

Definition strip (s : string) : string := rstrip (lstrip s).

(** ** The tabular loader and writer

    [pandas.read_csv], [DataFrame.to_csv] and the text of a float in an
    f-string are given from outside. *)
Class TabularIO := {
  read_csv : string → string + DataFrame;
  to_csv : DataFrame → string;
  format_float : option Qc → string
}.

(** ** [DataCleaner] *)

(** [_remove_duplicates]. *)
Definition _remove_duplicates (df : DataFrame) : M DataFrame :=
  let duplicates := count_true (duplicated df) in
  if bool_decide (0 < duplicates) then
    log INFO ("Removing " +:+ pretty duplicates +:+ " duplicate rows") ;;;
    ret (drop_duplicates df)
  else ret df.

(** One turn of the loop of [_handle_missing_values]. *)
Definition fill_column `{TabularIO} (nc : string * column) : M (string * column) :=
  if bool_decide (true ∈ col_isnull nc.2) then
    match nc.2 with
    | NumCol data =>
        let median_value := median data in
        log DEBUG ("Filled numeric column '" +:+ nc.1 +:+ "' with median: " +:+
                   format_float median_value) ;;;
        ret (nc.1, NumCol (fillna median_value data))
    | ObjCol data =>
        let mode_values := mode data in
        let fill_value :=
          match mode_values with v :: _ => v | [] => "Unknown" end in
        log DEBUG ("Filled categorical column '" +:+ nc.1 +:+ "' with: " +:+
                   fill_value) ;;;
        ret (nc.1, ObjCol (fillna (Some fill_value) data))
    end
  else ret nc.

(** [for column in df.columns], column by column. *)
Fixpoint for_columns {A B} (body : A → M B) (l : list A) : M (list B) :=
  match l with
  | [] => ret []
  | x :: l' => y <- body x ;; ys <- for_columns body l' ;; ret (y :: ys)
  end.

(** [_handle_missing_values]. *)
Definition _handle_missing_values `{TabularIO} (df : DataFrame) : M DataFrame :=
  let missing_count := isnull_sum_sum df in
  if bool_decide (missing_count = 0) then ret df
  else
    log INFO ("Handling " +:+ pretty missing_count +:+ " missing values") ;;;
    for_columns fill_column df.

(** One turn of the loop of [_standardize_data_types]: [.str.strip()] on a
    text column. *)
Definition strip_column (nc : string * column) : string * column :=
  match nc.2 with
  | ObjCol data => (nc.1, ObjCol (fmap (M := option) strip <$> data))
  | NumCol _ => nc
  end.

(** [_standardize_data_types]. *)
Definition _standardize_data_types (df : DataFrame) : M DataFrame :=
  ret (fmap (M := list) strip_column df).

Definition stats_get (stats : gmap string Z) (key : string) : Z :=
  default 0 (stats !! key).

(** [_log_cleaning_stats]. *)
Definition _log_cleaning_stats (stats : gmap string Z) (filename : string) : M unit :=
  log INFO ("Cleaning statistics for " +:+ filename +:+ ":") ;;;
  log INFO ("  Initial rows: " +:+ pretty (stats_get stats "initial_rows") +:+
            ", Final rows: " +:+ pretty (stats_get stats "final_rows")) ;;;
  log INFO ("  Missing values handled: " +:+
            pretty (stats_get stats "missing_values_found")) ;;;
  log INFO ("  Duplicate rows removed: " +:+
            pretty (stats_get stats "duplicate_rows_found")).

(** The in-memory part of [clean_csv]: the baseline statistics, the three
    steps in their order, and the final statistics. *)
Definition clean `{TabularIO} (df : DataFrame) : M (DataFrame * gmap string Z) :=
  let initial_rows := Z.of_nat (len df) in
  let initial_cols := Z.of_nat (length df) in
  let stats : gmap string Z :=
    <["duplicate_rows_found" := count_true (duplicated df)]>
    (<["missing_values_found" := isnull_sum_sum df]>
    (<["initial_columns" := initial_cols]>
    (<["initial_rows" := initial_rows]> ∅))) in
  df_cleaned <- _remove_duplicates df ;;
  df_cleaned <- _handle_missing_values df_cleaned ;;
  df_cleaned <- _standardize_data_types df_cleaned ;;
  let stats :=
    <["rows_removed" := initial_rows - Z.of_nat (len df_cleaned)]>
    (<["final_columns" := Z.of_nat (length df_cleaned)]>
    (<["final_rows" := Z.of_nat (len df_cleaned)]> stats)) in
  ret (df_cleaned, stats).

(** Reading the input through the loader. *)
Definition load `{TabularIO} (file_path : path) : M DataFrame :=
  fs <- get_fs ;;
  match fs !! file_path with
  | Some (File content) =>
      match read_csv content with
      | inr df => ret df
      | inl _ => raise (LoadError file_path)
      end
  | Some Dir => raise (IsADirectoryError file_path)
  | None => raise (FileNotFoundError file_path)
  end.

(** Writing a file: the parent must be a directory, and the path must not
    be one. *)
Definition write_text (p : path) (content : string) : M unit :=
  lift_fs (λ fs,
    match fs !! p with
    | Some Dir => Raise (IsADirectoryError p)
    | _ => if is_dir fs (parent p) then Return (<[p := File content]> fs)
           else Raise (FileNotFoundError p)
    end).

(** [str(e)] in the error line. *)
Definition exn_str (e : exn) : string :=
  match e with
  | FileExistsError p => "File exists: " +:+ path_str p
  | FileNotFoundError p => "No such file or directory: " +:+ path_str p
  | NotADirectoryError p => "Not a directory: " +:+ path_str p
  | IsADirectoryError p => "Is a directory: " +:+ path_str p
  | ShutilError p => "Destination path already exists: " +:+ path_str p
  | LoadError p => "Cannot parse: " +:+ path_str p
  end.

(** [DataCleaner.clean_csv]. *)
Definition clean_csv `{TabularIO} (file_path output_path : path) : M (gmap string Z) :=
  fs <- get_fs ;;
  if negb (path_exists fs file_path) || negb (is_file fs file_path) then
    log ERROR ("CSV file does not exist: " +:+ path_str file_path) ;;;
    ret ∅
  else
    log INFO ("Starting data cleaning: " +:+ path_name file_path) ;;;
    try_except
      (df <- load file_path ;;
       result <- clean df ;;
       let '(df_cleaned, stats) := result in
       ensure_directory (parent output_path) ;;;
       write_text output_path (to_csv df_cleaned) ;;;
       _log_cleaning_stats stats (path_name file_path) ;;;
       log INFO ("Cleaned data saved to: " +:+ path_str output_path) ;;;
       ret stats)
      (λ e,
         log ERROR ("Error cleaning CSV " +:+ path_name file_path +:+ ": " +:+
                    exn_str e) ;;;
         ret ∅).

(** ** Vocabulary of the specification *)

(** What one turn of the organizer loop does to the file system, without
    the log: the file is skipped, the turn ends in an exception, or a
    destination is resolved and the move is attempted. *)
Inductive turn :=
  | Skipped
  | Aborted (e : exn)
  | Attempted (target : path) (existed moved : bool) (fs' : filesystem).

Definition file_turn (config : AppConfig) (directory file_path : path)
    (fs : filesystem) : turn :=
  let category := _get_file_category config file_path in
  if bool_decide (category = "other") then Skipped
  else
    let target_dir := directory </> category in
    match mkdir_parents (length target_dir) fs target_dir with
    | Raise e => Aborted e
    | Return fs1 =>
        let target_path :=
          get_unique_filename fs1 target_dir (path_name file_path)
                              (max_duplicate_suffix config) in
        match shutil_move fs1 file_path target_path with
        | Return fs2 => Attempted target_path (path_exists fs1 target_path) true fs2
        | Raise _ => Attempted target_path (path_exists fs1 target_path) false fs1
        end
    end.

(** One resolved destination of a run: the file, the path resolved for it,
    whether that path existed when it was resolved, and whether the move
    succeeded. *)
Record attempt := Attempt {
  a_source : path;
  a_target : path;
  a_existed : bool;
  a_moved : bool
}.

(** The destinations resolved during the loop over [files], in order. *)
Fixpoint organize_trace (config : AppConfig) (directory : path)
    (files : list path) (processed_files : gset path) (fs : filesystem)
    : list attempt :=
  match files with
  | [] => []
  | file_path :: files' =>
      if bool_decide (file_path ∈ processed_files)
      then organize_trace config directory files' processed_files fs
      else match file_turn config directory file_path fs with
           | Skipped => organize_trace config directory files' processed_files fs
           | Aborted _ => []
           | Attempted target existed moved fs' =>
               Attempt file_path target existed moved ::
               organize_trace config directory files'
                 (if moved then {[file_path]} ∪ processed_files else processed_files)
                 fs'
           end
  end.


(** The tie-break the specification words for the mode: the first value of
    the column, in row order, among the most frequent ones. *)
Definition first_encountered_mode (data : list (option string)) : option string :=
  let values := present data in
  let top := max_list ((λ v, value_count v values) <$> values) in
  head (filter (λ v, value_count v values = top) values).

(** Removing all but the first occurrence of each row, as the specification
    words it. *)
Fixpoint keep_first_from (seen : list row) (rows : list row) : list row :=
  match rows with
  | [] => []
  | r :: rows' =>
      if bool_decide (r ∈ seen) then keep_first_from seen rows'
      else r :: keep_first_from (r :: seen) rows'
  end.

Definition keep_first (rows : list row) : list row := keep_first_from [] rows.



(** ** Example data *)

(** A configuration with one category and no numbered candidate at all. *)
Definition config_no_suffix : AppConfig := {|
  file_extensions := [("documents", [".txt"; ".pdf"])];
  log_file := ["automation.log"];
  max_duplicate_suffix := 0
|}.

(** [/d] holds [a.txt], [a_final.txt] and [notes]; [/d/documents] already
    holds an [a.txt]. *)
Definition fs_clash : filesystem :=
  list_to_map [ ([], Dir); (["d"], Dir);
                (["d"; "a.txt"], File "A");
                (["d"; "a_final.txt"], File "B");
                (["d"; "notes"], File "N");
                (["d"; "documents"], Dir);
                (["d"; "documents"; "a.txt"], File "old") ].

(** [/d] holds [a.pdf], [b.txt] and [notes]; [/d/documents] already holds a
    [b.txt]. *)
Definition fs_demo : filesystem :=
  list_to_map [ ([], Dir); (["d"], Dir);
                (["d"; "a.pdf"], File "A");
                (["d"; "b.txt"], File "B");
                (["d"; "notes"], File "N");
                (["d"; "documents"], Dir);
                (["d"; "documents"; "b.txt"], File "old") ].

(** [/d] holds files without a known extension only. *)
Definition fs_other : filesystem :=
  list_to_map [ ([], Dir); (["d"], Dir);
                (["d"; "notes"], File "N");
                (["d"; "data.xyz"], File "X") ].

(** A loader that reads every file as the empty table; enough to run the
    cleaner on tables given directly. *)
Definition null_io : TabularIO := {|
  read_csv := λ _, inr [];
  to_csv := λ _, "";
  format_float := λ _, ""
|}.

(** The value [_handle_missing_values] fills a text column with. *)
Definition fill_value (data : list (option string)) : string :=
  match mode data with
  | v :: _ => v
  | [] => "Unknown"
  end.

(** A column after imputation. *)
Definition filled_column (c : column) : column :=
  match c with
  | NumCol data => NumCol (fillna (median data) data)
  | ObjCol data => ObjCol (fillna (Some (fill_value data)) data)
  end.

Definition filled_frame (df : DataFrame) : DataFrame :=
  (λ nc, (nc.1, filled_column nc.2)) <$> df.

(** The frame [_remove_duplicates] returns. *)
Definition deduplicated_frame (df : DataFrame) : DataFrame :=
  if bool_decide (0 < count_true (duplicated df)) then drop_duplicates df else df.

(** The frame [clean] returns. *)
Definition cleaned_frame (df : DataFrame) : DataFrame :=
  strip_column <$> filled_frame (deduplicated_frame df).

(** Three rows of two columns, the first of them three times. *)
Definition df_abaca : DataFrame :=
  [ ("id", NumCol [Some (Qc_of_Z 1); Some (Qc_of_Z 2); Some (Qc_of_Z 1);
                   Some (Qc_of_Z 3); Some (Qc_of_Z 1)]);
    ("city", ObjCol [Some "Ankara"; None; Some "Ankara"; Some "Izmir"; Some "Ankara"]) ].


Definition col_xxy : list (option string) :=
  [Some "x"; Some "x"; None; Some "y"].

(** A text column whose two values are tied, the later one sorting first. *)
Definition col_yx : list (option string) := [Some "y"; Some "x"; None].

(** Two rows that differ only in an absent cell: imputation makes them
    equal after deduplication has run. *)
Definition df_imputed_twins : DataFrame :=
  [ ("k", NumCol [Some (Qc_of_Z 1); Some (Qc_of_Z 1)]);
    ("v", NumCol [Some (Qc_of_Z 5); None]) ].

(** A numeric column without any value. *)
Definition df_all_absent : DataFrame :=
  [ ("k", NumCol [Some (Qc_of_Z 1); Some (Qc_of_Z 2)]);
    ("v", NumCol [None; None]) ].

(** Two rows that differ only in the padding of a text cell. *)
Definition df_padded_twins : DataFrame :=
  [ ("city", ObjCol [Some " Ankara"; Some "Ankara"]) ].


(** [/data] holds one file. *)
Definition fs_data : filesystem :=
  list_to_map [ ([], Dir); (["data"], Dir); (["data"; "in.csv"], File "a,b") ].

(** ** Vocabulary of the further properties *)

(** A proper extension: a dot followed by at least one character, none of
    them a dot. *)
Definition proper_suffix (s : string) : Prop :=
  ∃ rest, s = String "."%char rest ∧ rest ≠ "" ∧ rfind_dot rest = None.

(** The writes of [_build_extension_map] in the order of its two loops:
    the lower-cased extension and the category it is filed under. *)
Definition listing (config : AppConfig) : list (string * string) :=
  '(category, extensions) ← file_extensions config;
  (λ ext, (lower ext, category)) <$> extensions.

(** No extension is listed under two categories. *)
Definition unambiguous (config : AppConfig) : Prop :=
  ∀ e c1 c2, (e, c1) ∈ listing config → (e, c2) ∈ listing config → c1 = c2.

(** A configuration that lists [.txt] twice. *)
Definition config_twice : AppConfig := {|
  file_extensions := [ ("documents", [".txt"; ".pdf"]); ("text", [".TXT"]) ];
  log_file := ["automation.log"];
  max_duplicate_suffix := 9999
|}.

(** A path strictly below [directory]: what [rglob] ranges over. *)
Definition inside (directory g : path) : Prop :=
  g ≠ directory ∧ directory `prefix_of` g.

(** The files a run moved, in all and into one category. *)
Definition moved_total (trace : list attempt) : Z :=
  Z.of_nat (length (filter (λ a, a_moved a = true) trace)).

Definition moved_into (config : AppConfig) (category : string)
    (trace : list attempt) : Z :=
  Z.of_nat (length (filter (λ a, a_moved a = true ∧
                                  _get_file_category config (a_source a) = category)
                           trace)).

(** A statistics entry after [n] more files. *)
Definition add_count (entry : option Z) (n : Z) : option Z :=
  if decide (n = 0) then entry else Some (default 0 entry + n).

(** [/d] holds [a.pdf] and a regular file named [documents]. *)
Definition fs_blocked : filesystem :=
  list_to_map [ ([], Dir); (["d"], Dir);
                (["d"; "a.pdf"], File "A");
                (["d"; "documents"], File "D") ].




(** ** [LoggerService] over the [logging] module

    A logger has a level, unset until [setLevel], and handlers; a handler
    has a destination and a level of its own.  A logger without a level
    takes the level of the root logger, [WARNING]; the root logger itself
    is left as the module creates it, without a handler. *)
Definition levelno (l : level) : Z :=
  match l with DEBUG => 10 | INFO => 20 | WARNING => 30 | ERROR => 40 end.

Inductive sink :=
  | Console
  | LogFile (name : string).

Global Instance sink_eq_dec : EqDecision sink.
Proof. solve_decision. Defined.

Record handler := Handler {
  h_sink : sink;
  h_level : level
}.

Record logger := Logger {
  lg_level : option level;
  lg_handlers : list handler
}.

(** The state behind [LoggerService]: the logger that the [logging] module
    keeps under the name [FileAutomation], whether the class attribute
    [_instance] is set, and whether the attribute [_logger] of the
    instance is. *)
Record service := Service {
  sv_registered : logger;
  sv_instance : bool;
  sv_logger : bool
}.

Definition fresh_service : service := Service (Logger None []) false false.

(** [LoggerService._setup_logger]. *)
Definition _setup_logger (s : service) : service :=
  let console_handler := Handler Console INFO in
  let file_handler := Handler (LogFile "automation.log") DEBUG in
  Service (Logger (Some INFO)
             (lg_handlers (sv_registered s) ++ [console_handler; file_handler]))
          (sv_instance s) true.

(** [LoggerService()]: [__new__], then [__init__] on what it returns. *)
Definition LoggerService (s : service) : service :=
  let s1 := if sv_instance s then s else Service (sv_registered s) true false in
  if sv_logger s1 then s1 else _setup_logger s1.

(** [Logger.log]: a record passes the level of the logger, then the level
    of each handler. *)
Definition effective_level (lg : logger) : Z :=
  match lg_level lg with Some l => levelno l | None => levelno WARNING end.

Definition deliver (lg : logger) (call : level * string)
    : list (sink * (level * string)) :=
  if bool_decide (effective_level lg ≤ levelno call.1) then
    omap (λ h, if bool_decide (levelno (h_level h) ≤ levelno call.1)
               then Some (h_sink h, call) else None)
         (lg_handlers lg)
  else [].

(** The methods [info], [error], [warning] and [debug] of the service. *)
Definition service_log (s : service) (call : level * string)
    : list (sink * (level * string)) :=
  if sv_logger s then deliver (sv_registered s) call else [].

(** What a sequence of calls leaves in one destination. *)
Definition written (s : service) (to : sink) (calls : list (level * string))
    : list (level * string) :=
  (λ d, d.2) <$> filter (λ d, d.1 = to) (calls ≫= service_log s).
(** ** Properties of the resolver *)

Section Resolver.
Context (fs : filesystem) (directory : path).

Lemma path_name_join (p : path) (name : string) : path_name (p </> name) = name.
Proof. unfold path_name, joinpath. apply last_last. Qed.

Lemma first_free_none stem suffix i n :
  first_free fs directory stem suffix i n = None ↔
  ∀ j, i ≤ j < i + Z.of_nat n →
       path_exists fs (directory </> numbered_name stem j suffix) = true.
Proof.
  revert i. induction n as [|n IH]; intros i; simpl.
  - split; [intros _ j ?; lia|done].
  - destruct (path_exists fs (directory </> numbered_name stem i suffix)) eqn:E; simpl.
    + rewrite IH. split.
      * intros H j Hj. destruct (decide (j = i)) as [->|]; [done|]. apply H. lia.
      * intros H j Hj. apply H. lia.
    + split; [done|]. intros H. rewrite H in E by lia. done.
Qed.

Lemma first_free_some stem suffix i n p :
  first_free fs directory stem suffix i n = Some p ↔
  ∃ k, i ≤ k < i + Z.of_nat n ∧
       p = directory </> numbered_name stem k suffix ∧
       path_exists fs p = false ∧
       ∀ j, i ≤ j < k →
            path_exists fs (directory </> numbered_name stem j suffix) = true.
Proof.
  revert i. induction n as [|n IH]; intros i; simpl.
  - split; [done|]. intros (k & ? & _). lia.
  - destruct (path_exists fs (directory </> numbered_name stem i suffix)) eqn:E; simpl.
    + rewrite IH. split.
      * intros (k & Hk & -> & Hfree & Hbusy). exists k. repeat split; [lia..|done|].
        intros j Hj. destruct (decide (j = i)) as [->|]; [done|]. apply Hbusy. lia.
      * intros (k & Hk & -> & Hfree & Hbusy).
        assert (k ≠ i) by (intros ->; congruence).
        exists k. repeat split; [lia..|done|]. intros j Hj. apply Hbusy. lia.
    + split.
      * intros [= <-]. exists i. repeat split; [lia..|done|]. intros j Hj. lia.
      * intros (k & Hk & -> & Hfree & Hbusy).
        destruct (decide (k = i)) as [->|]; [done|].
        rewrite Hbusy in E by lia. done.
Qed.
End Resolver.

Lemma get_unique_filename_unfold fs directory filename max_suffix :
  get_unique_filename fs directory filename max_suffix =
    if negb (path_exists fs (directory </> filename)) then directory </> filename
    else match first_free fs directory (stem_of filename) (suffix_of filename) 1
                 (Z.to_nat max_suffix) with
         | Some new_path => new_path
         | None => fallback directory filename
         end.
Proof.
  unfold get_unique_filename, path_stem, path_suffix, fallback.
  by rewrite path_name_join.
Qed.

(** The three outcomes of the resolver, as one case distinction. *)
Lemma get_unique_filename_cases fs directory filename max_suffix :
  let result := get_unique_filename fs directory filename max_suffix in
  (path_exists fs (directory </> filename) = false ∧
   result = directory </> filename) ∨
  (path_exists fs (directory </> filename) = true ∧
   ∃ i, 1 ≤ i ≤ max_suffix ∧
        result = candidate directory filename i ∧
        path_exists fs (candidate directory filename i) = false ∧
        ∀ j, 1 ≤ j < i → path_exists fs (candidate directory filename j) = true) ∨
  (path_exists fs (directory </> filename) = true ∧
   (∀ j, 1 ≤ j ≤ max_suffix →
         path_exists fs (candidate directory filename j) = true) ∧
   result = fallback directory filename).
Proof.
  intros result. subst result. rewrite get_unique_filename_unfold.
  destruct (path_exists fs (directory </> filename)) eqn:Hbase; simpl; [|by left].
  right.
  destruct (first_free _ _ _ _ _ _) as [p|] eqn:Hloop.
  - left. split; [done|].
    apply first_free_some in Hloop as (k & Hk & -> & Hfree & Hbusy).
    exists k. unfold candidate. split; [lia|]. split; [done|]. split; [done|].
    intros j Hj. apply Hbusy. lia.
  - right. split; [done|]. split; [|done].
    intros j Hj. eapply first_free_none in Hloop; [exact Hloop|lia].
Qed.

Example resolve_free : get_unique_filename fs_numbered ["d"] "b.txt" 9999 = ["d"; "b.txt"].
Proof. vm_compute. reflexivity. Qed.

Example resolve_third : get_unique_filename fs_numbered ["d"] "a.txt" 9999 = ["d"; "a_3.txt"].
Proof. vm_compute. reflexivity. Qed.

Example resolve_final : get_unique_filename fs_numbered ["d"] "a.txt" 2 = ["d"; "a_final.txt"].
Proof. vm_compute. reflexivity. Qed.

Example stem_suffix_examples :
  (stem_of "archive.tar.gz", suffix_of "archive.tar.gz") = ("archive.tar", ".gz") ∧
  (stem_of ".bashrc", suffix_of ".bashrc") = (".bashrc", "") ∧
  (stem_of "notes.", suffix_of "notes.") = ("notes.", "") ∧
  (stem_of "README", suffix_of "README") = ("README", "").
Proof. vm_compute. done. Qed.

(** C1.  The resolver returns the desired path when it is free; otherwise the
    numbered candidate with the smallest suffix in [1..max_suffix] that is
    free; and the [_final] name when every numbered candidate exists.  In
    particular, with the desired name and the candidates [1..n] present and
    the next one free, the result is candidate [n+1] if [n+1 ≤ max_suffix],
    and the [_final] name otherwise. *)
Theorem get_unique_filename_spec (fs : filesystem) (directory : path)
    (filename : string) (max_suffix : Z) :
  let result := get_unique_filename fs directory filename max_suffix in
  let base_path := directory </> filename in
  let exists_at i := path_exists fs (candidate directory filename i) = true in
  (path_exists fs base_path = false → result = base_path) ∧
  (path_exists fs base_path = true →
   ∀ i, 1 ≤ i ≤ max_suffix → ¬ exists_at i → (∀ j, 1 ≤ j < i → exists_at j) →
        result = candidate directory filename i) ∧
  (path_exists fs base_path = true →
   (∀ i, 1 ≤ i ≤ max_suffix → exists_at i) →
   result = fallback directory filename) ∧
  (∀ n, 0 ≤ n →
        path_exists fs base_path = true →
        (∀ j, 1 ≤ j ≤ n → exists_at j) →
        (n + 1 ≤ max_suffix → ¬ exists_at (n + 1)) →
        result = if decide (n + 1 ≤ max_suffix)
                 then candidate directory filename (n + 1)
                 else fallback directory filename).
Proof.
  intros result base_path exists_at.
  assert (Hsmallest : path_exists fs base_path = true →
            ∀ i, 1 ≤ i ≤ max_suffix → ¬ exists_at i →
                 (∀ j, 1 ≤ j < i → exists_at j) →
                 result = candidate directory filename i).
  { intros Hbase i Hi Hfree Hbusy.
    destruct (get_unique_filename_cases fs directory filename max_suffix)
      as [[Hb _]|[(_ & k & Hk & Hres & Hkfree & Hkbusy)|(_ & Hall & _)]].
    - unfold base_path in Hbase. congruence.
    - destruct (Z.lt_trichotomy k i) as [Hlt|[->|Hgt]]; [|done|].
      + specialize (Hbusy k ltac:(lia)). unfold exists_at in Hbusy. congruence.
      + destruct Hfree. apply Hkbusy. lia.
    - destruct Hfree. apply Hall. lia. }
  assert (Hfinal : path_exists fs base_path = true →
            (∀ i, 1 ≤ i ≤ max_suffix → exists_at i) →
            result = fallback directory filename).
  { intros Hbase Hall.
    destruct (get_unique_filename_cases fs directory filename max_suffix)
      as [[Hb _]|[(_ & k & Hk & _ & Hkfree & _)|(_ & _ & Hres)]].
    - unfold base_path in Hbase. congruence.
    - specialize (Hall k Hk). unfold exists_at in Hall. congruence.
    - done. }
  split; [|split; [done|split; [done|]]].
  - intros Hbase.
    destruct (get_unique_filename_cases fs directory filename max_suffix)
      as [[_ Hres]|[(Hb & _)|(Hb & _)]]; [done|..];
      unfold base_path in Hbase; congruence.
  - intros n Hn Hbase Hbusy Hnext. case_decide as Hle.
    + apply Hsmallest; [done|lia|auto|]. intros j Hj. apply Hbusy. lia.
    + apply Hfinal; [done|]. intros i Hi. apply Hbusy. lia.
Qed.

Lemma fs_numbered_candidates j :
  1 ≤ j ≤ 2 → path_exists fs_numbered (candidate ["d"] "a.txt" j) = true.
Proof.
  intros Hj. assert (j = 1 ∨ j = 2) as [->| ->] by lia; vm_compute; reflexivity.
Qed.

Lemma get_unique_filename_spec_witness :
  get_unique_filename fs_numbered ["d"] "a.txt" 9999 = ["d"; "a_3.txt"] ∧
  get_unique_filename fs_numbered ["d"] "a.txt" 2 = ["d"; "a_final.txt"].
Proof.
  split.
  - refine (proj2 (proj2 (proj2
      (get_unique_filename_spec fs_numbered ["d"] "a.txt" 9999))) 2 _ _ _ _).
    + lia.
    + vm_compute; reflexivity.
    + exact fs_numbered_candidates.
    + intros _. vm_compute. discriminate.
  - refine (proj2 (proj2 (proj2
      (get_unique_filename_spec fs_numbered ["d"] "a.txt" 2))) 2 _ _ _ _).
    + lia.
    + vm_compute; reflexivity.
    + exact fs_numbered_candidates.
    + intros H. exfalso. revert H. vm_compute. intros H. apply H. reflexivity.
Defined.

(** C5, as stated, fails: when the desired name and every numbered candidate
    exist, the [_final] name is returned without an existence check, and it
    may exist. *)
Lemma resolver_may_return_existing_path :
  ¬ (∀ (fs : filesystem) (directory : path) (filename : string) (max_suffix : Z),
       path_exists fs (get_unique_filename fs directory filename max_suffix) = false).
Proof.
  intros H. specialize (H fs_full ["d"] "a.txt" 2). vm_compute in H. discriminate.
Qed.

(** C5, amended.  Whenever the desired path or one of the numbered
    candidates [1..max_suffix] is free, the returned path does not exist in
    the snapshot. *)
Theorem get_unique_filename_fresh (fs : filesystem) (directory : path)
    (filename : string) (max_suffix : Z) :
  (path_exists fs (directory </> filename) = false ∨
   ∃ i, 1 ≤ i ≤ max_suffix ∧
        path_exists fs (candidate directory filename i) = false) →
  path_exists fs (get_unique_filename fs directory filename max_suffix) = false.
Proof.
  intros Hfree.
  destruct (get_unique_filename_cases fs directory filename max_suffix)
    as [[Hb ->]|[(_ & k & _ & -> & Hkfree & _)|(Hb & Hall & _)]]; [done..|].
  destruct Hfree as [Hfree|(i & Hi & Hfree)]; [congruence|].
  rewrite Hall in Hfree by done. discriminate.
Qed.

Lemma get_unique_filename_fresh_witness :
  path_exists fs_full (get_unique_filename fs_full ["d"] "a.txt" 9999) = false.
Proof.
  apply get_unique_filename_fresh. right. exists 3.
  split; [lia|]. vm_compute. reflexivity.
Defined.

(** ** Properties of the organizer *)

Lemma parent_join (p : path) (name : string) : parent (p </> name) = p.
Proof. unfold parent, joinpath. apply removelast_last. Qed.

Lemma length_join (p : path) (name : string) :
  length (p </> name) = S (length p).
Proof. unfold joinpath. rewrite length_app. simpl. lia. Qed.

Lemma join_ne_self (p : path) (name : string) : p </> name ≠ p.
Proof. intros H. apply (f_equal length) in H. rewrite length_join in H. lia. Qed.

Lemma get_unique_filename_shape fs directory filename max_suffix :
  ∃ name, get_unique_filename fs directory filename max_suffix = directory </> name.
Proof.
  destruct (get_unique_filename_cases fs directory filename max_suffix)
    as [[_ ->]|[(_ & k & _ & -> & _)|(_ & _ & ->)]]; eauto.
Qed.

(** [os.mkdir] and [mkdir -p] add directories at free paths and change
    nothing else. *)
Lemma os_mkdir_frame fs p fs' g :
  os_mkdir fs p = Return fs' → is_Some (fs !! g) → fs' !! g = fs !! g.
Proof.
  unfold os_mkdir, path_exists. intros H Hg.
  destruct (fs !! p) eqn:Hp; [done|].
  destruct (fs !! parent p) as [[]|]; try done.
  injection H as <-. rewrite lookup_insert_ne; [done|].
  intros ->. rewrite Hp in Hg. by destruct Hg.
Qed.

Lemma mkdir_parents_frame fuel fs p fs' g :
  mkdir_parents fuel fs p = Return fs' → is_Some (fs !! g) → fs' !! g = fs !! g.
Proof.
  revert fs p fs'. induction fuel as [|fuel IH]; intros fs p fs'; simpl.
  - destruct (os_mkdir fs p) as [fs1|e] eqn:Hmk.
    + intros [= <-]. by eapply os_mkdir_frame.
    + destruct e; destruct (is_dir fs p); by intros [= <-].
  - destruct (os_mkdir fs p) as [fs1|e] eqn:Hmk.
    + intros [= <-]. by eapply os_mkdir_frame.
    + destruct e; try (destruct (is_dir fs p); [by intros [= <-]|done]).
      case_bool_decide; [done|].
      destruct (mkdir_parents fuel fs (parent p)) as [fs1|e] eqn:Hrec; [|done].
      intros Hret Hg. pose proof (IH _ _ _ Hrec Hg) as Hfs1.
      destruct (os_mkdir fs1 p) as [fs2|e] eqn:Hmk2.
      * injection Hret as <-. rewrite <-Hfs1. eapply os_mkdir_frame; [done|].
        by rewrite Hfs1.
      * destruct (is_dir fs1 p); [|done]. by injection Hret as <-.
Qed.

(** Creating a category folder directly below an existing directory. *)
Lemma mkdir_parents_child fuel fs directory name :
  is_dir fs directory = true →
  mkdir_parents fuel fs (directory </> name) =
    match fs !! (directory </> name) with
    | None => Return (<[directory </> name := Dir]> fs)
    | Some Dir => Return fs
    | Some (File _) => Raise (FileExistsError (directory </> name))
    end.
Proof.
  unfold is_dir. intros Hdir.
  assert (os_mkdir fs (directory </> name) =
          match fs !! (directory </> name) with
          | None => Return (<[directory </> name := Dir]> fs)
          | Some _ => Raise (FileExistsError (directory </> name))
          end) as Hmk.
  { unfold os_mkdir, path_exists. rewrite parent_join.
    destruct (fs !! (directory </> name)); [done|].
    by destruct (fs !! directory) as [[]|]. }
  destruct fuel; simpl; rewrite Hmk; unfold is_dir;
    by destruct (fs !! (directory </> name)) as [[]|].
Qed.

(** What a successful [shutil.move] of a file does. *)
Lemma shutil_move_return fs src dst fs' :
  shutil_move fs src dst = Return fs' →
  ∃ content real_dst,
    fs !! src = Some (File content) ∧
    (real_dst = dst ∨ real_dst = dst </> path_name src) ∧
    (path_exists fs dst = false → real_dst = dst) ∧
    fs' = <[real_dst := File content]> (delete src fs).
Proof.
  unfold shutil_move, os_rename, is_dir, path_exists. intros H.
  destruct (fs !! dst) as [[old|]|] eqn:Hdst.
  - destruct (fs !! src) as [[content|]|]; try done.
    destruct (fs !! parent dst) as [[]|]; try done.
    injection H as <-. exists content, dst. eauto.
  - destruct (fs !! (dst </> path_name src)) eqn:Hreal; [done|].
    destruct (fs !! src) as [[content|]|]; try done.
    destruct (fs !! parent (dst </> path_name src)) as [[]|]; try done.
    injection H as <-. exists content, (dst </> path_name src).
    split; [done|]. split; [by right|]. done.
  - destruct (fs !! src) as [[content|]|]; try done.
    destruct (fs !! parent dst) as [[]|]; try done.
    injection H as <-. exists content, dst. eauto.
Qed.

(** Moving a file to a free path inside an existing directory succeeds. *)
Lemma shutil_move_free fs src dst content :
  fs !! src = Some (File content) →
  fs !! dst = None →
  is_dir fs (parent dst) = true →
  shutil_move fs src dst = Return (<[dst := File content]> (delete src fs)).
Proof.
  unfold shutil_move, os_rename, is_dir. intros Hsrc Hdst Hparent.
  rewrite !Hdst, Hsrc.
  by destruct (fs !! parent dst) as [[]|].
Qed.

(** The loop body, read off the turn it takes. *)
Lemma organize_file_turn config directory f stats processed w :
  f ∉ processed →
  match file_turn config directory f (w_fs w) with
  | Skipped =>
      ∃ msg, organize_file config directory f (stats, processed) w =
             (Return (stats, processed), World (w_fs w) (w_log w ++ [(DEBUG, msg)]))
  | Aborted e =>
      organize_file config directory f (stats, processed) w = (Raise e, w)
  | Attempted _ _ true fs' =>
      ∃ msg stats',
        organize_file config directory f (stats, processed) w =
        (Return (stats', {[f]} ∪ processed), World fs' (w_log w ++ [(INFO, msg)]))
  | Attempted _ _ false fs' =>
      ∃ msg, organize_file config directory f (stats, processed) w =
             (Return (stats, processed), World fs' (w_log w ++ [(ERROR, msg)]))
  end.
Proof.
  intros Hfresh. unfold file_turn, organize_file.
  rewrite (bool_decide_eq_false_2 (f ∈ processed)) by done.
  case_bool_decide as Hcat; [by eexists|].
  unfold move_file, ensure_directory, try_except, bind, lift_fs, get_fs, ret, log.
  destruct w as [fs lg]; simpl.
  destruct (mkdir_parents _ fs _) as [fs1|e]; [simpl|done].
  destruct (shutil_move fs1 f _) as [fs2|e]; simpl; by eauto.
Qed.

Lemma for_each_cons {A S} (x : A) (l : list A) (body : A → S → M S) (s : S) w :
  for_each (x :: l) body s w =
    match body x s w with
    | (Return s', w') => for_each l body s' w'
    | (Raise e, w') => (Raise e, w')
    end.
Proof. reflexivity. Qed.

Lemma file_turn_category config directory f fs target existed moved fs' :
  file_turn config directory f fs = Attempted target existed moved fs' →
  _get_file_category config f ≠ "other".
Proof. unfold file_turn. by case_bool_decide. Qed.

(** A turn never touches another entry of the directory itself. *)
Lemma file_turn_frame config directory f fs target existed moved fs' g :
  file_turn config directory f fs = Attempted target existed moved fs' →
  length g = S (length directory) → g ≠ f → is_Some (fs !! g) →
  fs' !! g = fs !! g.
Proof.
  unfold file_turn. case_bool_decide; [done|].
  destruct (mkdir_parents _ fs _) as [fs1|] eqn:Hmk; [|done].
  intros Hturn Hlen Hne Hg.
  pose proof (mkdir_parents_frame _ _ _ _ g Hmk Hg) as Hfs1.
  destruct (get_unique_filename_shape fs1
              (directory </> _get_file_category config f) (path_name f)
              (max_duplicate_suffix config)) as [name Hshape].
  rewrite Hshape in Hturn.
  destruct (shutil_move fs1 f _) as [fs2|] eqn:Hmove.
  - injection Hturn as _ _ _ <-.
    apply shutil_move_return in Hmove as (content & real & _ & Hreal & _ & ->).
    rewrite lookup_insert_ne, lookup_delete_ne; [done..|].
    intros <-. destruct Hreal as [-> | ->];
      rewrite !length_join in Hlen; lia.
  - by injection Hturn as _ _ _ <-.
Qed.




Lemma length_parent (p : path) : length (parent p) = pred (length p).
Proof.
  destruct p as [|x p _] using rev_ind; [done|].
  unfold parent. rewrite removelast_last, length_app. simpl. lia.
Qed.


Lemma is_file_lookup fs p :
  is_file fs p = true ↔ ∃ content, fs !! p = Some (File content).
Proof.
  unfold is_file. destruct (fs !! p) as [[]|]; split; try done; eauto.
  - by intros [? ?].
  - by intros [? ?].
Qed.


(** The files listed for an existing directory: pairwise distinct regular
    files directly below it. *)
Lemma get_files_in_directory_listing fs directory :
  let files := get_files_in_directory fs directory false in
  NoDup files ∧
  ∀ f, f ∈ files →
       length f = S (length directory) ∧ is_file fs f = true ∧
       f = directory </> path_name f.
Proof.
  unfold get_files_in_directory.
  destruct (negb (path_exists fs directory) || negb (is_dir fs directory)).
  { split; [constructor|]. intros f Hf. inversion Hf. }
  split.
  - unfold iterdir. do 2 apply NoDup_filter. apply NoDup_fst_map_to_list.
  - intros f [Hfile [[Hne Hparent] _]%list_elem_of_filter]%list_elem_of_filter.
    split; [|split; [done|]].
    + pose proof (length_parent f) as Hlen.
      rewrite Hparent in Hlen. destruct f; [done|]. simpl in *. lia.
    + rewrite <-Hparent. unfold joinpath, parent, path_name.
      by apply app_removelast_last.
Qed.

Lemma log_loop_run {A} (l : list A) (msg : A → string) (lv : level) w :
  for_each l (λ x _, log lv (msg x)) tt w
  = (Return tt, World (w_fs w) (w_log w ++ ((λ x, (lv, msg x)) <$> l))).
Proof.
  revert w. induction l as [|x l IH]; intros [fs lg].
  - simpl. unfold ret. by rewrite app_nil_r.
  - rewrite for_each_cons. unfold log at 1. simpl. rewrite IH. simpl.
    by rewrite <-app_assoc.
Qed.

(** [_log_statistics] writes informational lines and nothing else. *)
Lemma log_statistics_run stats w :
  ∃ lines, _log_statistics stats w
           = (Return tt, World (w_fs w) (w_log w ++ lines)) ∧
           Forall (λ line, line.1 = INFO) lines.
Proof.
  unfold _log_statistics, bind. unfold log at 1. simpl.
  rewrite log_loop_run. simpl. rewrite <-app_assoc. eexists. split; [done|].
  apply Forall_app. split; [by repeat constructor|].
  apply Forall_fmap, Forall_true. done.
Qed.

(** [organize_directory] on an existing directory: the start line, the
    loop, and the statistics lines. *)
Lemma organize_directory_run config directory w :
  is_dir (w_fs w) directory = true →
  let w0 := World (w_fs w)
              (w_log w ++ [(INFO, "Starting file organization in: " +:+
                                  path_str directory)]) in
  let loop := for_each (get_files_in_directory (w_fs w) directory false)
                (organize_file config directory) (∅, ∅) w0 in
  match loop.1 with
  | Return vars =>
      ∃ lines, organize_directory config directory w
               = (Return vars.1, World (w_fs loop.2) (w_log loop.2 ++ lines)) ∧
               Forall (λ line, line.1 = INFO) lines
  | Raise e => organize_directory config directory w = (Raise e, loop.2)
  end.
Proof.
  intros Hdir w0 loop. unfold organize_directory, bind, get_fs.
  assert (path_exists (w_fs w) directory = true) as ->.
  { unfold is_dir, path_exists in *. by destruct (w_fs w !! directory). }
  rewrite Hdir. simpl. fold w0 loop.
  destruct loop as [[vars|e] w1]; simpl; [|done].
  destruct (log_statistics_run vars.1 w1) as (lines & -> & Hinfo).
  exists lines. split; [done|done].
Qed.

Example organize_demo :
  let result := organize_directory get_default ["d"] (World fs_demo []) in
  result.1 = Return {[ "documents" := 2 ]} ∧
  w_fs result.2 !! ["d"; "documents"; "a.pdf"] = Some (File "A") ∧
  w_fs result.2 !! ["d"; "documents"; "b_1.txt"] = Some (File "B") ∧
  w_fs result.2 !! ["d"; "documents"; "b.txt"] = Some (File "old") ∧
  w_fs result.2 !! ["d"; "notes"] = Some (File "N") ∧
  w_fs result.2 !! ["d"; "a.pdf"] = None ∧
  w_fs result.2 !! ["d"; "b.txt"] = None.
Proof. vm_compute. done. Qed.

(** With no numbered candidate left, [a.txt] falls back to the name
    [a_final.txt], which [a_final.txt] itself has just taken: both moves go
    to one path and the content of the first is lost. *)
Example organize_clash :
  let result := organize_directory config_no_suffix ["d"] (World fs_clash []) in
  get_files_in_directory fs_clash ["d"] false
    = [["d"; "a_final.txt"]; ["d"; "a.txt"]; ["d"; "notes"]] ∧
  result.1 = Return {[ "documents" := 2 ]} ∧
  w_log result.2 =
    [ (INFO, "Starting file organization in: /d");
      (INFO, "Moved a_final.txt -> documents/a_final.txt");
      (INFO, "Moved a.txt -> documents/a_final.txt");
      (DEBUG, "Skipping uncategorized file: notes");
      (INFO, "Organization complete. Total files moved: 2");
      (INFO, "  documents: 2 files") ] ∧
  w_fs result.2 !! ["d"; "documents"; "a_final.txt"] = Some (File "A") ∧
  w_fs result.2 !! ["d"; "a_final.txt"] = None.
Proof. vm_compute. done. Qed.









(** The guard of [organize_directory]: a missing path or a non-directory
    yields the empty record, one error line, and no change to the files. *)
Lemma organize_directory_invalid config directory w :
  is_dir (w_fs w) directory = false →
  organize_directory config directory w
  = (Return ∅,
     World (w_fs w)
       (w_log w ++ [(ERROR, "Directory does not exist: " +:+ path_str directory)])).
Proof.
  intros Hdir. unfold organize_directory, bind, get_fs.
  rewrite Hdir, orb_true_r. reflexivity.
Qed.

(** A loop over files that are all skipped. *)
Lemma organize_loop_other config directory files :
  ∀ vars w,
    (∀ f, f ∈ files → _get_file_category config f = "other") →
    ∃ lines,
      for_each files (organize_file config directory) vars w
      = (Return vars, World (w_fs w) (w_log w ++ lines)) ∧
      Forall (λ line, line.1 = DEBUG) lines.
Proof.
  induction files as [|f files IH]; intros [stats processed] [fs lg] Hother.
  { exists []. simpl. unfold ret. by rewrite app_nil_r. }
  assert (∀ g, g ∈ files → _get_file_category config g = "other") as Hrest
    by (intros g Hg; apply Hother; by right).
  rewrite for_each_cons. unfold organize_file. case_bool_decide.
  - unfold ret at 1. by apply IH.
  - rewrite bool_decide_eq_true_2 by (apply Hother; by left).
    unfold bind, log, ret. simpl.
    edestruct (IH (stats, processed)) as (lines' & -> & Hdebug'); [done|].
    simpl. rewrite <-app_assoc. eexists. split; [done|].
    constructor; [done|exact Hdebug'].
Qed.

(** C10.  On an existing directory whose files all classify as [other] (an
    empty directory included) [organize_directory] completes without an
    error line and without touching a file, and returns the empty record:
    the very value it returns for a missing or non-directory input. *)
Theorem organize_nothing_to_move (config : AppConfig) (directory : path) (w : world) :
  is_dir (w_fs w) directory = true →
  (∀ f, f ∈ get_files_in_directory (w_fs w) directory false →
        _get_file_category config f = "other") →
  (∃ lines,
     organize_directory config directory w
     = (Return ∅, World (w_fs w) (w_log w ++ lines)) ∧
     Forall (λ line, line.1 ≠ ERROR) lines) ∧
  (∀ directory' w',
     is_dir (w_fs w') directory' = false →
     (organize_directory config directory' w').1
     = (organize_directory config directory w).1).
Proof.
  intros Hdir Hother.
  assert (∃ lines,
            organize_directory config directory w
            = (Return ∅, World (w_fs w) (w_log w ++ lines)) ∧
            Forall (λ line, line.1 ≠ ERROR) lines) as Hrun.
  { pose proof (organize_directory_run config directory w Hdir) as Hrun.
    simpl in Hrun.
    edestruct (organize_loop_other config directory
                 (get_files_in_directory (w_fs w) directory false) (∅, ∅))
      as (debug & Hloop & Hdebug); [done|].
    rewrite Hloop in Hrun. simpl in Hrun.
    destruct Hrun as (info & -> & Hinfo).
    rewrite <-!app_assoc. eexists. split; [done|].
    constructor; [done|]. apply Forall_app. split.
    - eapply Forall_impl; [exact Hdebug|]. intros line ->. done.
    - eapply Forall_impl; [exact Hinfo|]. intros line ->. done. }
  split; [done|]. intros directory' w' Hbad.
  destruct Hrun as (lines & -> & _).
  by rewrite organize_directory_invalid.
Qed.

Lemma organize_nothing_to_move_witness :
  (organize_directory get_default ["d"] (World fs_other [])).1 = Return ∅ ∧
  (organize_directory get_default ["missing"] (World fs_other [])).1 = Return ∅.
Proof.
  destruct (organize_nothing_to_move get_default ["d"] (World fs_other []))
    as [(lines & Hrun & _) Hsame].
  - reflexivity.
  - intros f Hf. vm_compute in Hf.
    repeat (apply elem_of_cons in Hf as [->|Hf]; [vm_compute; reflexivity|]).
    inversion Hf.
  - split; [by rewrite Hrun|]. rewrite (Hsame ["missing"]); [by rewrite Hrun|].
    reflexivity.
Defined.

(** ** Properties of deduplication *)

Section Select.
Context {A B C : Type}.

Lemma select_nil_r (mask : list bool) : select mask (@nil A) = [].
Proof. by destruct mask. Qed.

Lemma select_fmap (f : A → B) mask (l : list A) :
  select mask (f <$> l) = f <$> select mask l.
Proof.
  revert l. induction mask as [|b mask IH]; intros [|x l]; simpl; try done.
  destruct b; simpl; by rewrite IH.
Qed.

Lemma select_zip_with (f : A → B → C) mask (l : list A) (k : list B) :
  select mask (zip_with f l k) = zip_with f (select mask l) (select mask k).
Proof.
  revert l k. induction mask as [|b mask IH]; intros [|x l] [|y k]; simpl; try done.
  - by rewrite zip_with_nil_r.
  - destruct b; simpl; by rewrite IH.
Qed.

Lemma select_all (mask : list bool) (l : list A) :
  (length l ≤ length mask)%nat → Forall (λ b, b = true) mask → select mask l = l.
Proof.
  revert l. induction mask as [|b mask IH]; intros [|x l] Hlen Hall; simpl in *;
    try done; [lia|].
  apply Forall_cons in Hall as [-> Hall]. rewrite IH; [done|lia|done].
Qed.

Lemma length_select_negb (mask : list bool) (l : list A) :
  length mask = length l →
  Z.of_nat (length (select (negb <$> mask) l))
  = (Z.of_nat (length l) - count_true mask)%Z.
Proof.
  unfold count_true. revert l.
  induction mask as [|b mask IH]; intros [|x l] Hlen; csimpl in *; try done.
  specialize (IH l ltac:(lia)). rewrite filter_cons.
  destruct b; csimpl in *; lia.
Qed.
End Select.

Lemma col_cells_select mask c :
  col_cells (col_select mask c) = select mask (col_cells c).
Proof. destruct c; simpl; by rewrite select_fmap. Qed.

(** Selecting positions column by column selects the rows. *)
Lemma rows_of_select mask (df : DataFrame) :
  rows_of (df_select mask df) = select mask (rows_of df).
Proof.
  induction df as [|[name c] df IH]; simpl.
  { by rewrite select_nil_r. }
  destruct df as [|nc df]; simpl in *.
  - by rewrite col_cells_select, select_fmap.
  - by rewrite col_cells_select, select_zip_with, <-IH.
Qed.

Lemma length_duplicated_from seen rows :
  length (duplicated_from seen rows) = length rows.
Proof. revert seen. induction rows as [|r rows IH]; intros seen; simpl; by rewrite ?IH. Qed.

Lemma duplicated_from_equiv seen1 seen2 rows :
  (∀ r, r ∈ seen1 ↔ r ∈ seen2) →
  duplicated_from seen1 rows = duplicated_from seen2 rows.
Proof.
  revert seen1 seen2. induction rows as [|r rows IH]; intros seen1 seen2 Heq; simpl.
  { done. }
  f_equal; [by apply bool_decide_ext|].
  apply IH. intros x. rewrite !elem_of_cons. by rewrite Heq.
Qed.

(** Dropping the marked rows is keeping the first occurrences. *)
Lemma select_keep_first seen (rows : list row) :
  select (negb <$> duplicated_from seen rows) rows = keep_first_from seen rows.
Proof.
  revert seen. induction rows as [|r rows IH]; intros seen; simpl; [done|].
  case_bool_decide as Hin; simpl.
  - rewrite <-IH. f_equal. f_equal. apply duplicated_from_equiv.
    intros x. rewrite elem_of_cons. split; [by intros [->|?]|by right].
  - by rewrite IH.
Qed.

Lemma rows_of_drop_duplicates (df : DataFrame) :
  rows_of (drop_duplicates df) = keep_first (rows_of df).
Proof.
  unfold drop_duplicates, duplicated, keep_first.
  by rewrite rows_of_select, select_keep_first.
Qed.

Lemma rectangular_cons name c (df : DataFrame) :
  rectangular ((name, c) :: df) →
  Forall (λ nc, length (col_cells nc.2) = length (col_cells c)) df.
Proof. unfold rectangular. simpl. by intros [_ ?]%Forall_cons. Qed.

Lemma length_rows_of (df : DataFrame) :
  rectangular df → length (rows_of df) = len df.
Proof.
  induction df as [|[name c] df IH]; [done|]. intros Hrect.
  apply rectangular_cons in Hrect. simpl.
  destruct df as [|[name' c'] df]; [by rewrite length_fmap|].
  rewrite length_zip_with. rewrite IH.
  - apply Forall_cons in Hrect as [Hc' _]. simpl in *. lia.
  - unfold rectangular. apply Forall_cons in Hrect as [Hc' Hrect]. simpl in *.
    constructor; [done|]. eapply Forall_impl; [exact Hrect|].
    intros nc Hnc. simpl in *. congruence.
Qed.

Lemma length_duplicated (df : DataFrame) :
  rectangular df → length (duplicated df) = len df.
Proof. intros. unfold duplicated. by rewrite length_duplicated_from, length_rows_of. Qed.

(** Deduplication removes exactly the marked rows. *)
Lemma len_drop_duplicates (df : DataFrame) :
  rectangular df →
  Z.of_nat (len (drop_duplicates df))
  = Z.of_nat (len df) - count_true (duplicated df).
Proof.
  intros Hrect. pose proof (length_duplicated df Hrect) as Hmask.
  unfold drop_duplicates. destruct df as [|[name c] df]; simpl in *.
  { reflexivity. }
  rewrite col_cells_select. by apply length_select_negb.
Qed.

Lemma count_true_zero mask :
  count_true mask = 0 → Forall (λ b, b = true) (negb <$> mask).
Proof.
  unfold count_true. induction mask as [|b mask IH]; simpl; [constructor|].
  rewrite filter_cons. destruct b; simpl.
  - lia.
  - intros. constructor; [done|by apply IH].
Qed.

(** Without a marked row, dropping duplicates changes nothing. *)
Lemma drop_duplicates_none (df : DataFrame) :
  rectangular df → count_true (duplicated df) = 0 → drop_duplicates df = df.
Proof.
  intros Hrect Hnone. pose proof (length_duplicated df Hrect) as Hmask.
  apply count_true_zero in Hnone.
  unfold drop_duplicates, df_select.
  etrans; [|apply list_fmap_id]. apply Forall_fmap_ext.
  eapply Forall_impl; [exact Hrect|]. intros [name c] Hc. csimpl in *.
  f_equal. destruct c as [data|data]; csimpl in *; f_equal;
    (apply select_all; [|done]); rewrite length_fmap; rewrite length_fmap in Hc; lia.
Qed.

Lemma keep_first_from_sublist seen rows :
  keep_first_from seen rows `sublist_of` rows.
Proof.
  revert seen. induction rows as [|r rows IH]; intros seen; simpl; [done|].
  case_bool_decide; [apply sublist_cons|apply sublist_skip]; apply IH.
Qed.

Lemma keep_first_from_fresh seen rows r :
  r ∈ keep_first_from seen rows → r ∉ seen.
Proof.
  revert seen. induction rows as [|r' rows IH]; intros seen; simpl.
  { by intros ?%elem_of_nil. }
  case_bool_decide as Hin; [apply IH|].
  intros [->|Hr]%elem_of_cons; [done|].
  apply IH in Hr. intros ?. apply Hr. by right.
Qed.

Lemma keep_first_from_NoDup seen rows : NoDup (keep_first_from seen rows).
Proof.
  revert seen. induction rows as [|r rows IH]; intros seen; simpl; [constructor|].
  case_bool_decide; [apply IH|]. constructor; [|apply IH].
  intros Hr%keep_first_from_fresh. apply Hr. by left.
Qed.

Lemma keep_first_from_elem seen rows r :
  r ∈ rows → r ∈ seen ∨ r ∈ keep_first_from seen rows.
Proof.
  revert seen. induction rows as [|r' rows IH]; intros seen; simpl.
  { by intros ?%elem_of_nil. }
  intros [->|Hr]%elem_of_cons.
  - case_bool_decide; [by left|right; by left].
  - case_bool_decide; [by apply IH|].
    destruct (IH (r' :: seen) Hr) as [[->|?]%elem_of_cons|?].
    + right. by left.
    + by left.
    + right. by right.
Qed.

(** A row is marked exactly when an equal row precedes it. *)
Lemma duplicated_from_lookup seen rows i :
  duplicated_from seen rows !! i = Some true ↔
  ∃ r, rows !! i = Some r ∧
       (r ∈ seen ∨ ∃ j, (j < i)%nat ∧ rows !! j = Some r).
Proof.
  revert seen i. induction rows as [|r rows IH]; intros seen i; simpl.
  { split; [done|]. by intros (? & ? & _). }
  destruct i as [|i]; simpl.
  - split.
    + intros [= Hin%bool_decide_eq_true_1]. exists r. split; [done|by left].
    + intros (r' & [= <-] & [Hin|(j & ? & _)]); [|lia].
      by rewrite bool_decide_eq_true_2.
  - rewrite IH. split.
    + intros (r' & Hi & [[->|Hin]%elem_of_cons|(j & Hj & Hrj)]).
      * exists r. split; [done|]. right. exists 0%nat. split; [lia|done].
      * exists r'. split; [done|by left].
      * exists r'. split; [done|]. right. exists (S j). split; [lia|done].
    + intros (r' & Hi & [Hin|(j & Hj & Hrj)]).
      * exists r'. split; [done|]. left. by right.
      * exists r'. split; [done|]. destruct j as [|j]; simpl in *.
        -- injection Hrj as ->. left. by left.
        -- right. exists j. split; [lia|done].
Qed.

(** ** The steps of the cleaner as functions of the frame *)

Lemma remove_duplicates_run (df : DataFrame) w :
  ∃ lines,
    _remove_duplicates df w
    = (Return (deduplicated_frame df), World (w_fs w) (w_log w ++ lines)) ∧
    Forall (λ line, line.1 = INFO) lines.
Proof.
  unfold _remove_duplicates, deduplicated_frame. case_bool_decide.
  - unfold bind, log, ret. simpl. eexists. split; [done|]. by repeat constructor.
  - exists []. unfold ret. rewrite app_nil_r. by destruct w.
Qed.

Lemma deduplicated_frame_rectangular (df : DataFrame) :
  rectangular df → deduplicated_frame df = drop_duplicates df.
Proof.
  intros Hrect. unfold deduplicated_frame. case_bool_decide as Hdup; [done|].
  symmetry. apply drop_duplicates_none; [done|].
  unfold count_true in *. lia.
Qed.

Lemma fillna_no_null {A} (value : option A) (data : list (option A)) :
  true ∉ isnull data → fillna value data = data.
Proof.
  unfold fillna, isnull. induction data as [|[x|] data IH]; csimpl; intros Hnull.
  - done.
  - f_equal. apply IH. intros ?. apply Hnull. by right.
  - destruct Hnull. by left.
Qed.

Lemma filled_column_no_null (c : column) :
  true ∉ col_isnull c → filled_column c = c.
Proof. destruct c; simpl; intros ?; f_equal; by apply fillna_no_null. Qed.

Lemma fill_column_run `{TabularIO} (nc : string * column) w :
  ∃ lines,
    fill_column nc w
    = (Return (nc.1, filled_column nc.2), World (w_fs w) (w_log w ++ lines)) ∧
    Forall (λ line, line.1 = DEBUG) lines.
Proof.
  unfold fill_column. destruct nc as [name c]. simpl. case_bool_decide as Hnull.
  - destruct c; unfold bind, log, ret; simpl;
      (eexists; split; [done|by repeat constructor]).
  - exists []. unfold ret. rewrite app_nil_r, filled_column_no_null by done.
    by destruct w.
Qed.

Lemma for_columns_run `{TabularIO} (df : DataFrame) w :
  ∃ lines,
    for_columns fill_column df w
    = (Return (filled_frame df), World (w_fs w) (w_log w ++ lines)) ∧
    Forall (λ line, line.1 = DEBUG) lines.
Proof.
  revert w. induction df as [|nc df IH]; intros w.
  { exists []. simpl. unfold ret. rewrite app_nil_r. by destruct w. }
  simpl. unfold bind.
  destruct (fill_column_run nc w) as (lines1 & -> & Hdebug1).
  destruct (IH (World (w_fs w) (w_log w ++ lines1))) as (lines2 & -> & Hdebug2).
  simpl. unfold ret. rewrite <-app_assoc. eexists. split; [done|].
  by apply Forall_app.
Qed.

Lemma isnull_sum_sum_zero (df : DataFrame) :
  isnull_sum_sum df = 0 → Forall (λ nc, true ∉ col_isnull nc.2) df.
Proof.
  induction df as [|nc df IH]; simpl; [constructor|]. intros Hsum.
  assert (0 ≤ isnull_sum_sum df).
  { clear. induction df; simpl; unfold count_true in *; lia. }
  assert (count_true (col_isnull nc.2) = 0) as Hnc by (unfold count_true in *; lia).
  constructor; [|apply IH; unfold count_true in *; lia].
  intros Hin. unfold count_true in Hnc.
  assert (length (filter (λ b, b = true) (col_isnull nc.2)) = 0%nat) as Hlen by lia.
  apply length_zero_iff_nil in Hlen.
  assert (true ∈ filter (λ b, b = true) (col_isnull nc.2)) as Hf
    by (by apply list_elem_of_filter).
  rewrite Hlen in Hf. by apply elem_of_nil in Hf.
Qed.

Lemma handle_missing_values_run `{TabularIO} (df : DataFrame) w :
  ∃ lines,
    _handle_missing_values df w
    = (Return (filled_frame df), World (w_fs w) (w_log w ++ lines)) ∧
    Forall (λ line, line.1 ≠ ERROR) lines.
Proof.
  unfold _handle_missing_values. case_bool_decide as Hnone.
  - exists []. unfold ret. rewrite app_nil_r. split; [|done].
    replace (filled_frame df) with df; [by destruct w|].
    apply isnull_sum_sum_zero in Hnone. unfold filled_frame.
    symmetry. etrans; [|apply list_fmap_id]. apply Forall_fmap_ext.
    eapply Forall_impl; [exact Hnone|]. intros [name c] Hc. simpl in *.
    by rewrite filled_column_no_null.
  - unfold bind, log. simpl.
    edestruct for_columns_run as (lines & -> & Hdebug).
    simpl. rewrite <-app_assoc. eexists. split; [done|].
    constructor; [done|]. eapply Forall_impl; [exact Hdebug|]. by intros line ->.
Qed.

Lemma len_filled_frame (df : DataFrame) : len (filled_frame df) = len df.
Proof.
  destruct df as [|[name c] df]; [done|]. simpl.
  destruct c; simpl; unfold fillna; by rewrite !length_fmap.
Qed.

Lemma len_strip (df : DataFrame) : len (strip_column <$> df) = len df.
Proof.
  destruct df as [|[name c] df]; [done|]. csimpl.
  destruct c; simpl; by rewrite ?length_fmap.
Qed.

Lemma len_cleaned_frame (df : DataFrame) :
  len (cleaned_frame df) = len (deduplicated_frame df).
Proof. unfold cleaned_frame. by rewrite len_strip, len_filled_frame. Qed.

(** [clean] always returns: the frame after the three steps, and the seven
    statistics. *)
Lemma clean_run `{TabularIO} (df : DataFrame) w :
  ∃ lines stats,
    clean df w
    = (Return (cleaned_frame df, stats), World (w_fs w) (w_log w ++ lines)) ∧
    Forall (λ line, line.1 ≠ ERROR) lines ∧
    stats !! "initial_rows" = Some (Z.of_nat (len df)) ∧
    stats !! "initial_columns" = Some (Z.of_nat (length df)) ∧
    stats !! "missing_values_found" = Some (isnull_sum_sum df) ∧
    stats !! "duplicate_rows_found" = Some (count_true (duplicated df)) ∧
    stats !! "final_rows" = Some (Z.of_nat (len (cleaned_frame df))) ∧
    stats !! "final_columns" = Some (Z.of_nat (length (cleaned_frame df))) ∧
    stats !! "rows_removed"
    = Some (Z.of_nat (len df) - Z.of_nat (len (cleaned_frame df))).
Proof.
  unfold clean, bind.
  destruct (remove_duplicates_run df w) as (lines1 & -> & Hinfo).
  edestruct (handle_missing_values_run (deduplicated_frame df))
    as (lines2 & -> & Hfill).
  unfold _standardize_data_types, ret. simpl. fold (cleaned_frame df).
  rewrite <-app_assoc. eexists _, _. split; [done|]. split.
  { apply Forall_app. split; [|done].
    eapply Forall_impl; [exact Hinfo|]. by intros line ->. }
  repeat split; by simplify_map_eq.
Qed.

(** The row statistics of [clean] on a rectangular frame. *)
Lemma clean_row_statistics `{TabularIO} (df : DataFrame) w :
  rectangular df →
  ∃ lines stats,
    clean df w
    = (Return (cleaned_frame df, stats), World (w_fs w) (w_log w ++ lines)) ∧
    len (cleaned_frame df) = len (drop_duplicates df) ∧
    stats !! "initial_rows" = Some (Z.of_nat (len df)) ∧
    stats !! "missing_values_found" = Some (isnull_sum_sum df) ∧
    stats !! "duplicate_rows_found" = Some (count_true (duplicated df)) ∧
    stats !! "final_rows"
    = Some (Z.of_nat (len df) - count_true (duplicated df)) ∧
    stats !! "rows_removed" = Some (count_true (duplicated df)).
Proof.
  intros Hrect.
  destruct (clean_run df w)
    as (lines & stats & Hrun & _ & Hrows & _ & Hmissing & Hdup & Hfinal & _ & Hremoved).
  pose proof (len_cleaned_frame df) as Hlen.
  rewrite deduplicated_frame_rectangular in Hlen by done.
  pose proof (len_drop_duplicates df Hrect) as Hdrop.
  exists lines, stats. split; [done|]. split; [done|].
  rewrite Hfinal, Hremoved, Hlen. repeat split; try done; f_equal; lia.
Qed.

Example clean_abaca :
  cleaned_frame df_abaca =
    [ ("id", NumCol [Some (Qc_of_Z 1); Some (Qc_of_Z 2); Some (Qc_of_Z 3)]);
      ("city", ObjCol [Some "Ankara"; Some "Ankara"; Some "Izmir"]) ] ∧
  len df_abaca = 5%nat ∧
  isnull_sum_sum df_abaca = 1 ∧
  count_true (duplicated df_abaca) = 2 ∧
  len (cleaned_frame df_abaca) = 3%nat.
Proof. vm_compute. done. Qed.

(** Membership in an explicit list of rows, split into equations. *)
Ltac split_membership :=
  repeat match goal with
    | H : _ ∈ [] |- _ => apply elem_of_nil in H; destruct H
    | H : _ ∈ _ :: _ |- _ => apply elem_of_cons in H as [H|H]
    | H : _ ∉ _ :: _ |- _ => apply not_elem_of_cons in H as [? H]
    end.

Lemma df_abaca_rectangular : rectangular df_abaca.
Proof. repeat constructor. Qed.

(** C4.  [_remove_duplicates] keeps the first occurrence of each distinct
    row and drops the others, in the order of the table; a row is dropped
    exactly when a row with equal cells, absent cells included, precedes it.
    For rows [A, B, A, C, A] the kept rows are [A, B, C], and [clean]
    reports two duplicates, two rows removed and three final rows. *)
Theorem remove_duplicates_keeps_first `{TabularIO} (df : DataFrame) (w : world) :
  rectangular df →
  ∃ deduplicated w1,
    _remove_duplicates df w = (Return deduplicated, w1) ∧
    rows_of deduplicated = keep_first (rows_of df) ∧
    NoDup (rows_of deduplicated) ∧
    rows_of deduplicated `sublist_of` rows_of df ∧
    (∀ r, r ∈ rows_of df ↔ r ∈ rows_of deduplicated) ∧
    (∀ i, duplicated df !! i = Some true ↔
          ∃ r j, (j < i)%nat ∧ rows_of df !! j = Some r ∧ rows_of df !! i = Some r) ∧
    (∀ A B C : row,
       A ≠ B → A ≠ C → B ≠ C → rows_of df = [A; B; A; C; A] →
       rows_of deduplicated = [A; B; C] ∧
       ∃ cleaned stats w',
         clean df w = (Return (cleaned, stats), w') ∧
         len cleaned = 3%nat ∧
         stats !! "duplicate_rows_found" = Some 2 ∧
         stats !! "rows_removed" = Some 2 ∧
         stats !! "final_rows" = Some 3).
Proof.
  intros Hrect.
  destruct (remove_duplicates_run df w) as (lines & Hrun & _).
  rewrite deduplicated_frame_rectangular in Hrun by done.
  eexists _, _. split; [exact Hrun|].
  rewrite rows_of_drop_duplicates. split; [done|].
  split; [apply keep_first_from_NoDup|].
  split; [apply keep_first_from_sublist|].
  split; [|split].
  - intros r. split.
    + intros Hr. by destruct (keep_first_from_elem [] _ _ Hr) as [?%elem_of_nil|?].
    + intros Hr. eapply elem_of_sublist; [exact Hr|apply keep_first_from_sublist].
  - intros i. unfold duplicated. rewrite duplicated_from_lookup. split.
    + intros (r & Hi & [?%elem_of_nil|(j & Hj & Hrj)]); [done|]. by exists r, j.
    + intros (r & j & Hj & Hrj & Hi). exists r. split; [done|]. right. by exists j.
  - intros A B C HAB HAC HBC Hrows.
    assert (keep_first (rows_of df) = [A; B; C]) as Hkept.
    { rewrite Hrows. unfold keep_first. simpl.
      repeat case_bool_decide; split_membership; congruence. }
    split; [done|].
    destruct (clean_row_statistics df w Hrect)
      as (lines' & stats & Hclean & Hlen & _ & _ & Hdup & Hfinal & Hremoved).
    assert (len df = 5%nat) as Hfive by (by rewrite <-length_rows_of, Hrows).
    assert (duplicated df = [false; false; true; false; true]) as Hmask.
    { unfold duplicated. rewrite Hrows. simpl.
      repeat case_bool_decide; split_membership; congruence. }
    pose proof (len_drop_duplicates df Hrect) as Hdrop.
    rewrite Hmask, Hfive in *.
    eexists _, _, _. split; [exact Hclean|]. rewrite Hlen.
    split; [|done]. change (count_true _) with 2 in Hdrop. lia.
Qed.

Lemma remove_duplicates_keeps_first_witness :
  ∃ deduplicated w1,
    _remove_duplicates df_abaca (World ∅ []) = (Return deduplicated, w1) ∧
    rows_of deduplicated =
      [ [NumCell (Some (Qc_of_Z 1)); ObjCell (Some "Ankara")];
        [NumCell (Some (Qc_of_Z 2)); ObjCell None];
        [NumCell (Some (Qc_of_Z 3)); ObjCell (Some "Izmir")] ].
Proof.
  destruct (remove_duplicates_keeps_first (H := null_io) df_abaca (World ∅ [])
              df_abaca_rectangular)
    as (deduplicated & w1 & Hrun & _ & _ & _ & _ & _ & Hexample).
  exists deduplicated, w1. split; [exact Hrun|].
  apply (Hexample [NumCell (Some (Qc_of_Z 1)); ObjCell (Some "Ankara")]
                  [NumCell (Some (Qc_of_Z 2)); ObjCell None]
                  [NumCell (Some (Qc_of_Z 3)); ObjCell (Some "Izmir")]);
    [discriminate..|reflexivity].
Defined.

(** C7.  In [clean], deduplication runs first and is the only step that
    changes the number of rows: imputation receives the deduplicated frame
    and keeps its length, and so does the trimming of text; hence
    [final_rows = initial_rows - duplicate_rows_found] and
    [rows_removed = duplicate_rows_found]. *)
Theorem clean_row_counts `{TabularIO} (df : DataFrame) (w : world) :
  rectangular df →
  ∃ deduplicated w1 imputed w2 cleaned stats,
    _remove_duplicates df w = (Return deduplicated, w1) ∧
    _handle_missing_values deduplicated w1 = (Return imputed, w2) ∧
    _standardize_data_types imputed w2 = (Return cleaned, w2) ∧
    clean df w = (Return (cleaned, stats), w2) ∧
    Z.of_nat (len deduplicated) = Z.of_nat (len df) - count_true (duplicated df) ∧
    len imputed = len deduplicated ∧
    len cleaned = len imputed ∧
    stats !! "initial_rows" = Some (Z.of_nat (len df)) ∧
    stats !! "duplicate_rows_found" = Some (count_true (duplicated df)) ∧
    stats !! "final_rows"
    = Some (Z.of_nat (len df) - count_true (duplicated df)) ∧
    stats !! "rows_removed" = Some (count_true (duplicated df)).
Proof.
  intros Hrect.
  destruct (remove_duplicates_run df w) as (lines1 & Hdedup & _).
  edestruct (handle_missing_values_run (deduplicated_frame df))
    as (lines2 & Hfill & _).
  destruct (clean_row_statistics df w Hrect)
    as (lines & stats & Hclean & _ & Hrows & _ & Hdup & Hfinal & Hremoved).
  eexists _, _, _, _, (cleaned_frame df), stats.
  split; [exact Hdedup|]. split; [exact Hfill|]. split; [reflexivity|].
  split.
  { rewrite Hclean. f_equal. unfold clean, bind in Hclean.
    rewrite Hdedup, Hfill in Hclean. simpl in Hclean. by injection Hclean as _ <-. }
  split.
  { rewrite deduplicated_frame_rectangular by done. by apply len_drop_duplicates. }
  split; [apply len_filled_frame|]. split; [apply len_strip|done].
Qed.

Lemma clean_row_counts_witness :
  ∃ stats w',
    clean (H := null_io) df_abaca (World ∅ []) = (Return (cleaned_frame df_abaca, stats), w') ∧
    stats !! "final_rows" = Some 3 ∧ stats !! "rows_removed" = Some 2.
Proof.
  destruct (clean_row_counts (H := null_io) df_abaca (World ∅ []) df_abaca_rectangular)
    as (d1 & w1 & d2 & w2 & cleaned & stats & Hd1 & Hd2 & Hd3 & Hclean & _ & _ & _ & _ & _
        & Hfinal & Hremoved).
  exists stats, w2. split; [|split; [exact Hfinal|exact Hremoved]].
  rewrite Hclean. f_equal. f_equal.
  vm_compute in Hd1. injection Hd1 as <- <-.
  vm_compute in Hd2. injection Hd2 as <- <-.
  vm_compute in Hd3. injection Hd3 as <-.
  vm_compute. reflexivity.
Defined.

(** ** Properties of imputation *)

Lemma fillna_lookup_null {A} (value : option A) data i :
  data !! i = Some None → fillna value data !! i = Some value.
Proof. intros Hi. unfold fillna. by rewrite list_lookup_fmap, Hi. Qed.

Lemma fillna_lookup_present {A} (value : option A) data i x :
  data !! i = Some (Some x) → fillna value data !! i = Some (Some x).
Proof. intros Hi. unfold fillna. by rewrite list_lookup_fmap, Hi. Qed.

Lemma filled_frame_lookup (df : DataFrame) j name c :
  df !! j = Some (name, c) → filled_frame df !! j = Some (name, filled_column c).
Proof. intros Hj. unfold filled_frame. by rewrite list_lookup_fmap, Hj. Qed.



Example median_even :
  median [Some (Qc_of_Z 4); None; Some (Qc_of_Z 1); Some (Qc_of_Z 3); Some (Qc_of_Z 2)]
  = Some (Qc_of_Z 5 / Qc_of_Z 2)%Qc.
Proof. vm_compute. f_equal; apply Qc_is_canon; reflexivity. Qed.



(** ** The mode *)

Lemma value_count_pos v (values : list string) :
  (0 < value_count v values)%nat ↔ v ∈ values.
Proof.
  unfold value_count. split.
  - intros Hpos. destruct (filter (λ x, x = v) values) as [|x l] eqn:Hf; [simpl in *; lia|].
    assert (x ∈ filter (λ x, x = v) values) as Hx by (rewrite Hf; by left).
    by apply list_elem_of_filter in Hx as [-> ?].
  - intros Hin.
    assert (v ∈ filter (λ x, x = v) values) as Hv by (by apply list_elem_of_filter).
    destruct (filter (λ x, x = v) values); [by apply elem_of_nil in Hv|simpl; lia].
Qed.

(** The fill value of a text column: [Unknown] for a column without a
    value; otherwise a most frequent value, and the least of them in the
    order of strings. *)
Lemma fill_value_spec (data : list (option string)) :
  (present data = [] → fill_value data = "Unknown") ∧
  (present data ≠ [] →
   fill_value data ∈ present data ∧
   (∀ v, (value_count v (present data) ≤ value_count (fill_value data) (present data))%nat) ∧
   (∀ v, value_count v (present data) = value_count (fill_value data) (present data) →
         String.le (fill_value data) v)).
Proof.
  unfold fill_value, mode. set (values := present data).
  set (top := max_list ((λ v, value_count v values) <$> values)).
  set (tied := filter (λ v, value_count v values = top) values).
  split.
  { intros Hnil. subst tied. rewrite Hnil. reflexivity. }
  intros Hne.
  assert (∀ v, v ∈ merge_sort String.le (remove_dups tied) ↔
               v ∈ values ∧ value_count v values = top) as Hmodes.
  { intros v. rewrite merge_sort_Permutation, elem_of_remove_dups.
    subst tied. rewrite list_elem_of_filter. tauto. }
  assert (∀ v, (value_count v values ≤ top)%nat) as Hmax.
  { intros v. destruct (decide (v ∈ values)) as [Hin|Hout].
    - apply max_list_elem_of_le, list_elem_of_fmap. by exists v.
    - assert (¬ (0 < value_count v values)%nat) by (by rewrite value_count_pos). lia. }
  assert (∃ v, v ∈ values ∧ value_count v values = top) as (v0 & Hv0 & Htop).
  { assert (top ∈ (λ v, value_count v values) <$> values) as Hin.
    { apply max_list_elem_of. by destruct values. }
    apply list_elem_of_fmap in Hin as (v & -> & Hv). by exists v. }
  pose proof (StronglySorted_merge_sort String.le (remove_dups tied)) as Hsorted.
  destruct (merge_sort String.le (remove_dups tied)) as [|m rest] eqn:Hsort.
  { exfalso. eapply elem_of_nil, Hmodes. done. }
  destruct (proj1 (Hmodes m) ltac:(by left)) as [Hm Hmtop].
  split; [done|]. split; [intros v; rewrite Hmtop; apply Hmax|].
  intros v Hv. rewrite Hmtop in Hv.
  assert (v ∈ values) as Hvin.
  { apply value_count_pos. rewrite Hv, <-Hmtop. by apply value_count_pos. }
  pose proof (proj2 (Hmodes v) (conj Hvin Hv)) as Hvm.
  apply elem_of_cons in Hvm as [->|Hrest]; [done|].
  apply StronglySorted_inv in Hsorted as [_ Hall].
  by eapply Forall_forall in Hall.
Qed.

Example fill_value_examples :
  fill_value col_xxy = "x" ∧
  fill_value col_yx = "x" ∧ first_encountered_mode col_yx = Some "y" ∧
  fill_value [None; None] = "Unknown".
Proof. vm_compute. done. Qed.

(** C2, as stated, fails: among tied values the fill value is not the one
    met first in the column but the one that sorts first. *)
Lemma mode_tie_is_not_first_encountered :
  ¬ (∀ (io : TabularIO) (df : DataFrame) (w : world) imputed w' j name data v,
       _handle_missing_values df w = (Return imputed, w') →
       df !! j = Some (name, ObjCol data) →
       None ∈ data →
       first_encountered_mode data = Some v →
       imputed !! j = Some (name, ObjCol (fillna (Some v) data))).
Proof.
  intros Hclaim.
  specialize (Hclaim null_io [("c", ObjCol col_yx)] (World ∅ [])
                _ _ 0%nat "c" col_yx "y" eq_refl eq_refl).
  assert (None ∈ col_yx) as Hnull by (unfold col_yx; right; right; by left).
  specialize (Hclaim Hnull eq_refl). vm_compute in Hclaim. discriminate.
Qed.

(** C2, amended.  [_handle_missing_values] replaces every absent cell of a
    text column by the mode of the present values of that column and leaves
    the present cells alone; among equally frequent values the mode taken
    is the least in the order of strings; a column without a present value
    is filled with [Unknown]. *)
Theorem categorical_imputation `{TabularIO} (df : DataFrame) (w : world) :
  ∃ imputed w',
    _handle_missing_values df w = (Return imputed, w') ∧
    (∀ j name data,
       df !! j = Some (name, ObjCol data) → None ∈ data →
       ∃ data',
         imputed !! j = Some (name, ObjCol data') ∧
         length data' = length data ∧
         (∀ i, data !! i = Some None → data' !! i = Some (Some (fill_value data))) ∧
         (∀ i x, data !! i = Some (Some x) → data' !! i = Some (Some x)) ∧
         (present data = [] → fill_value data = "Unknown") ∧
         (present data ≠ [] →
          fill_value data ∈ present data ∧
          (∀ v, (value_count v (present data)
                 ≤ value_count (fill_value data) (present data))%nat) ∧
          (∀ v, value_count v (present data)
                = value_count (fill_value data) (present data) →
                String.le (fill_value data) v))) ∧
    fill_value col_xxy = "x".
Proof.
  destruct (handle_missing_values_run df w) as (lines & Hrun & _).
  eexists _, _. split; [exact Hrun|]. split; [|reflexivity].
  intros j name data Hj _. exists (fillna (Some (fill_value data)) data).
  split; [by apply (filled_frame_lookup df j name (ObjCol data))|].
  split; [unfold fillna; by rewrite length_fmap|].
  split; [intros i; apply fillna_lookup_null|].
  split; [intros i x; apply fillna_lookup_present|].
  apply fill_value_spec.
Qed.

Lemma categorical_imputation_witness :
  ∃ imputed w' data',
    _handle_missing_values (H := null_io) [("city", ObjCol col_xxy)] (World ∅ [])
    = (Return imputed, w') ∧
    imputed !! 0%nat = Some ("city", ObjCol data') ∧
    data' !! 2%nat = Some (Some "x").
Proof.
  destruct (categorical_imputation (H := null_io) [("city", ObjCol col_xxy)] (World ∅ []))
    as (imputed & w' & Hrun & Hcol & Hfill).
  destruct (Hcol 0%nat "city" col_xxy eq_refl) as (data' & Hlookup & _ & Hnull & _).
  { unfold col_xxy. right. right. by left. }
  exists imputed, w', data'. split; [exact Hrun|]. split; [exact Hlookup|].
  rewrite (Hnull 2%nat eq_refl). by rewrite Hfill.
Defined.

(** ** A second pass of [clean] *)

Lemma length_select_same {A B} mask (l : list A) (k : list B) :
  length l = length k → length (select mask l) = length (select mask k).
Proof.
  revert l k. induction mask as [|b mask IH]; intros [|x l] [|y k] Hlen;
    simpl in *; try done.
  destruct b; simpl; rewrite (IH l k); lia.
Qed.

Lemma rectangular_select mask (df : DataFrame) :
  rectangular df → rectangular (df_select mask df).
Proof.
  unfold rectangular. intros Hrect.
  destruct df as [|[name c] df]; [constructor|].
  unfold df_select. apply Forall_fmap. eapply Forall_impl; [exact Hrect|].
  intros [name' c'] Hlen. simpl in *.
  rewrite !col_cells_select. by apply length_select_same.
Qed.








Lemma count_true_no_true mask : true ∉ mask → count_true mask = 0.
Proof.
  unfold count_true. intros Hnone.
  destruct (filter (λ b, b = true) mask) as [|b l] eqn:Hf; [done|].
  assert (b ∈ filter (λ b, b = true) mask) as Hb by (rewrite Hf; by left).
  apply list_elem_of_filter in Hb as [-> Hb]. done.
Qed.

(** Pairwise distinct rows carry no mark. *)
Lemma duplicated_NoDup (df : DataFrame) :
  NoDup (rows_of df) → count_true (duplicated df) = 0.
Proof.
  intros Hnodup. apply count_true_no_true.
  intros [i Hi]%list_elem_of_lookup. unfold duplicated in Hi.
  apply duplicated_from_lookup in Hi as (r & Hr & [?%elem_of_nil|(j & Hj & Hrj)]); [done|].
  pose proof (NoDup_lookup _ _ _ _ Hnodup Hr Hrj). lia.
Qed.


Lemma isnull_sum_sum_nonneg (df : DataFrame) : 0 ≤ isnull_sum_sum df.
Proof. induction df; simpl; unfold count_true in *; lia. Qed.














(** What a second pass finds on the output of the first. *)
Example second_pass_after_imputation :
  count_true (duplicated df_imputed_twins) = 0 ∧
  count_true (duplicated (cleaned_frame df_imputed_twins)) = 1.
Proof. vm_compute. done. Qed.

Example second_pass_after_trimming :
  count_true (duplicated df_padded_twins) = 0 ∧
  count_true (duplicated (cleaned_frame df_padded_twins)) = 1.
Proof. vm_compute. done. Qed.

Example second_pass_all_absent :
  isnull_sum_sum df_all_absent = 2 ∧
  isnull_sum_sum (cleaned_frame df_all_absent) = 2.
Proof. vm_compute. done. Qed.





(** ** Invalid input *)

(** The guard of [clean_csv]. *)
Lemma clean_csv_invalid `{TabularIO} file_path output_path w :
  path_exists (w_fs w) file_path = false ∨ is_file (w_fs w) file_path = false →
  clean_csv file_path output_path w
  = (Return ∅,
     World (w_fs w)
       (w_log w ++ [(ERROR, "CSV file does not exist: " +:+ path_str file_path)])).
Proof.
  intros Hbad. unfold clean_csv, bind, get_fs.
  replace (negb (path_exists (w_fs w) file_path) || negb (is_file (w_fs w) file_path))
    with true; [done|].
  destruct Hbad as [-> | ->]; [done|]. by rewrite orb_true_r.
Qed.

Lemma log_cleaning_stats_run stats filename w :
  ∃ lines,
    _log_cleaning_stats stats filename w
    = (Return tt, World (w_fs w) (w_log w ++ lines)) ∧
    Forall (λ line, line.1 = INFO) lines.
Proof.
  unfold _log_cleaning_stats, bind, log. simpl.
  rewrite <-!app_assoc. eexists. split; [done|]. by repeat constructor.
Qed.

(** [clean_csv] never raises.  It returns the empty record together with an
    error line, or a populated record without one. *)
Lemma clean_csv_outcome `{TabularIO} file_path output_path w :
  ∃ stats w',
    clean_csv file_path output_path w = (Return stats, w') ∧
    ((stats = ∅ ∧ ∃ lines msg, w_log w' = w_log w ++ lines ++ [(ERROR, msg)]) ∨
     (stats ≠ ∅ ∧ ∃ lines, w_log w' = w_log w ++ lines ∧
                           Forall (λ line, line.1 ≠ ERROR) lines)).
Proof.
  destruct (negb (path_exists (w_fs w) file_path) || negb (is_file (w_fs w) file_path))
    eqn:Hguard.
  { rewrite clean_csv_invalid.
    - eexists _, _. split; [done|]. left. split; [done|]. by eexists [], _.
    - apply orb_true_iff in Hguard as [?%negb_true_iff|?%negb_true_iff]; auto. }
  unfold clean_csv, bind at 1, get_fs. rewrite Hguard.
  unfold bind at 1, log at 1. simpl.
  set (w0 := World (w_fs w) (w_log w ++ [_])).
  assert (∀ e w1 lines,
    w_log w1 = w_log w ++ lines →
    ∃ (stats : gmap string Z) w',
      (log ERROR ("Error cleaning CSV " +:+ path_name file_path +:+ ": " +:+ exn_str e) ;;;
       ret (∅ : gmap string Z)) w1 = (Return stats, w') ∧
      ((stats = ∅ ∧ ∃ lines msg, w_log w' = w_log w ++ lines ++ [(ERROR, msg)]) ∨
       (stats ≠ ∅ ∧ ∃ lines, w_log w' = w_log w ++ lines ∧
                             Forall (λ line, line.1 ≠ ERROR) lines))) as Hhandler.
  { intros e w1 lines Hlog. unfold bind, log, ret. simpl.
    eexists _, _. split; [done|]. left. split; [done|].
    eexists lines, _. simpl. by rewrite Hlog, <-app_assoc. }
  unfold try_except, bind at 1, load, bind at 1, get_fs. simpl.
  destruct (w_fs w !! file_path) as [[content|]|];
    [|by eapply (Hhandler _ w0)..].
  destruct (read_csv content) as [err|df]; [by eapply (Hhandler _ w0)|].
  unfold ret at 1, bind at 1.
  destruct (clean_run df w0) as (lines1 & stats & -> & Hlines1 & Hrows & _).
  set (w1 := World _ _).
  assert (w_log w1 = w_log w ++ [_] ++ lines1) as Hlog1
    by (subst w1 w0; simpl; by rewrite <-app_assoc).
  unfold bind at 1, ensure_directory, lift_fs.
  destruct (mkdir_parents _ (w_fs w1) _) as [fs2|e];
    [|eapply (Hhandler _ w1); exact Hlog1].
  unfold bind at 1, write_text, lift_fs. cbn [w_fs w_log].
  set (written := match fs2 !! output_path with
                  | Some Dir => _ | _ => _ end).
  destruct written as [fs3|e];
    [|eapply (Hhandler _ (World fs2 (w_log w1))); exact Hlog1].
  unfold bind at 1.
  edestruct (log_cleaning_stats_run stats (path_name file_path))
    as (lines2 & -> & Hlines2).
  unfold bind, log, ret. simpl.
  eexists _, _. split; [done|]. right. split.
  { intros ->. by rewrite lookup_empty in Hrows. }
  eexists. split.
  { rewrite <-!app_assoc. simpl. reflexivity. }
  constructor; [done|]. apply Forall_app. split; [done|].
  apply Forall_app. split.
  - eapply Forall_impl; [exact Hlines2|]. by intros line ->.
  - by repeat constructor.
Qed.

(** C9.  When the directory given to [organize_directory] does not exist or
    is not a directory, and when the path given to [clean_csv] does not
    exist or is not a file, the call writes one error line, changes nothing
    in the file system, and returns the empty record.  For [clean_csv] the
    empty record always comes with an error line, and a populated record
    never does. *)
Theorem invalid_input_returns_empty `{TabularIO} (config : AppConfig)
    (directory file_path output_path : path) (w : world) :
  (path_exists (w_fs w) directory = false ∨ is_dir (w_fs w) directory = false →
   ∃ msg, organize_directory config directory w
          = (Return ∅, World (w_fs w) (w_log w ++ [(ERROR, msg)]))) ∧
  (path_exists (w_fs w) file_path = false ∨ is_file (w_fs w) file_path = false →
   ∃ msg, clean_csv file_path output_path w
          = (Return ∅, World (w_fs w) (w_log w ++ [(ERROR, msg)]))) ∧
  (∃ stats w',
     clean_csv file_path output_path w = (Return stats, w') ∧
     ((stats = ∅ ∧ ∃ lines msg, w_log w' = w_log w ++ lines ++ [(ERROR, msg)]) ∨
      (stats ≠ ∅ ∧ ∃ lines, w_log w' = w_log w ++ lines ∧
                            Forall (λ line, line.1 ≠ ERROR) lines))).
Proof.
  split; [|split].
  - intros Hbad. eexists. apply organize_directory_invalid.
    destruct Hbad as [Hmissing|Hdir]; [|done].
    unfold path_exists, is_dir in *. by destruct (w_fs w !! directory).
  - intros Hbad. eexists. by apply clean_csv_invalid.
  - apply clean_csv_outcome.
Qed.

Lemma invalid_input_returns_empty_witness :
  (organize_directory get_default ["missing"] (World fs_data [])).1 = Return ∅ ∧
  (organize_directory get_default ["data"; "in.csv"] (World fs_data [])).1 = Return ∅ ∧
  (clean_csv (H := null_io) ["data"; "none.csv"] ["data"; "out.csv"] (World fs_data [])).1
  = Return ∅ ∧
  (clean_csv (H := null_io) ["data"] ["data"; "out.csv"] (World fs_data [])).1 = Return ∅.
Proof.
  split; [|split; [|split]].
  - destruct (proj1 (invalid_input_returns_empty (H := null_io) get_default
                       ["missing"] [] [] (World fs_data []))) as [msg ->];
      [by left|done].
  - destruct (proj1 (invalid_input_returns_empty (H := null_io) get_default
                       ["data"; "in.csv"] [] [] (World fs_data []))) as [msg ->];
      [by right|done].
  - destruct (proj1 (proj2 (invalid_input_returns_empty (H := null_io) get_default
                       [] ["data"; "none.csv"] ["data"; "out.csv"] (World fs_data []))))
      as [msg ->]; [by left|done].
  - destruct (proj1 (proj2 (invalid_input_returns_empty (H := null_io) get_default
                       [] ["data"] ["data"; "out.csv"] (World fs_data []))))
      as [msg ->]; [by right|done].
Defined.

Example clean_csv_success :
  let result := clean_csv (H := null_io) ["data"; "in.csv"] ["data"; "out"; "clean.csv"]
                  (World fs_data []) in
  match result.1 with
  | Return stats => stats !! "initial_rows"
  | Raise _ => None
  end = Some 0 ∧
  w_fs result.2 !! ["data"; "out"] = Some Dir ∧
  w_fs result.2 !! ["data"; "out"; "clean.csv"] = Some (File "").
Proof. vm_compute. done. Qed.

(** ** Names, stems and extensions *)

Lemma string_app_nil_r (s : string) : s +:+ "" = s.
Proof. induction s as [|c s IH]; [done|]. unfold String.app in *. simpl. by rewrite IH. Qed.

Lemma string_app_assoc (a b c : string) : (a +:+ b) +:+ c = a +:+ (b +:+ c).
Proof. induction a as [|x a IH]; [done|]. unfold String.app in *. simpl. by rewrite IH. Qed.

Lemma string_app_nil_l (s : string) : "" +:+ s = s.
Proof. reflexivity. Qed.

Lemma string_app_cons (x : ascii) (a b : string) : String x a +:+ b = String x (a +:+ b).
Proof. reflexivity. Qed.

Lemma string_length_app (a b : string) :
  String.length (a +:+ b) = (String.length a + String.length b)%nat.
Proof. induction a as [|x a IH]; [done|]. rewrite string_app_cons. simpl. by rewrite IH. Qed.

Lemma string_app_inj_length (a b c d : string) :
  String.length a = String.length b → a +:+ c = b +:+ d → a = b ∧ c = d.
Proof.
  revert b. induction a as [|x a IH]; intros [|y b] Hlen Heq; simpl in *; try done.
  rewrite !string_app_cons in Heq. injection Heq as -> Heq.
  destruct (IH b) as [-> ->]; [lia|done|done].
Qed.

Lemma string_app_inj_r (a b c : string) : a +:+ c = b +:+ c → a = b.
Proof.
  intros Heq. destruct (string_app_inj_length a b c c); [|done..].
  apply (f_equal String.length) in Heq. rewrite !string_length_app in Heq. lia.
Qed.

Lemma substring_full (s : string) : String.substring 0 (String.length s) s = s.
Proof. induction s as [|c s IH]; [done|]. simpl. by rewrite IH. Qed.

Lemma substring_app_l (a b : string) : String.substring 0 (String.length a) (a +:+ b) = a.
Proof.
  induction a as [|x a IH].
  - rewrite string_app_nil_l. by destruct b.
  - rewrite string_app_cons. simpl. by rewrite IH.
Qed.

Lemma substring_app_r (a b : string) :
  String.substring (String.length a) (String.length b) (a +:+ b) = b.
Proof.
  induction a as [|x a IH].
  - rewrite string_app_nil_l. apply substring_full.
  - rewrite string_app_cons. exact IH.
Qed.

Lemma rfind_dot_app (a b : string) :
  rfind_dot (a +:+ b) =
    match rfind_dot b with
    | Some j => Some (String.length a + j)%nat
    | None => rfind_dot a
    end.
Proof.
  induction a as [|x a IH].
  - rewrite string_app_nil_l. by destruct (rfind_dot b).
  - rewrite string_app_cons. simpl. rewrite IH. by destruct (rfind_dot b).
Qed.

(** The last dot splits a string into what precedes it and a dot-free rest. *)
Lemma rfind_dot_Some (s : string) (i : nat) :
  rfind_dot s = Some i →
  ∃ pre rest, s = pre +:+ String "."%char rest ∧ String.length pre = i ∧
              rfind_dot rest = None.
Proof.
  revert i. induction s as [|c s IH]; intros i; simpl; [done|].
  destruct (rfind_dot s) as [j|] eqn:Hs.
  - intros [= <-]. destruct (IH j eq_refl) as (pre & rest & -> & <- & Hrest).
    exists (String c pre), rest. by rewrite string_app_cons.
  - destruct (Ascii.eqb_spec c "."%char) as [->|]; [|done].
    intros [= <-]. by exists "", s.
Qed.

(** A name with an extension is its stem followed by a proper suffix. *)
Lemma split_point_Some (name : string) (i : nat) :
  split_point name = Some i →
  ∃ pre rest,
    name = pre +:+ String "."%char rest ∧ pre ≠ "" ∧ rest ≠ "" ∧
    rfind_dot rest = None ∧
    stem_of name = pre ∧ suffix_of name = String "."%char rest.
Proof.
  intros Hsplit. unfold stem_of, suffix_of. rewrite Hsplit.
  unfold split_point in Hsplit.
  destruct (rfind_dot name) as [j|] eqn:Hdot; [|done].
  case_bool_decide as Hrange; [|done]. injection Hsplit as ->.
  destruct (rfind_dot_Some name i Hdot) as (pre & rest & -> & <- & Hrest).
  rewrite string_length_app in Hrange. simpl in Hrange.
  exists pre, rest. split; [done|].
  split; [intros ->; simpl in *; lia|].
  split; [intros ->; simpl in *; lia|]. split; [done|]. split.
  - apply substring_app_l.
  - rewrite string_length_app.
    replace (String.length pre + String.length (String "."%char rest)
             - String.length pre)%nat
      with (String.length (String "."%char rest)) by lia.
    apply substring_app_r.
Qed.

Lemma split_point_app (pre rest : string) :
  pre ≠ "" → rest ≠ "" → rfind_dot rest = None →
  split_point (pre +:+ String "."%char rest) = Some (String.length pre).
Proof.
  intros Hpre Hrest Hdot. unfold split_point.
  rewrite rfind_dot_app. simpl. rewrite Hdot. simpl.
  rewrite Nat.add_0_r, string_length_app. simpl.
  rewrite bool_decide_eq_true_2; [done|].
  destruct pre; [done|]. destruct rest; [done|]. simpl. lia.
Qed.

Lemma stem_suffix_app (pre s : string) :
  pre ≠ "" → proper_suffix s →
  stem_of (pre +:+ s) = pre ∧ suffix_of (pre +:+ s) = s.
Proof.
  intros Hpre (rest & -> & Hrest & Hdot). unfold stem_of, suffix_of.
  rewrite split_point_app by done. split.
  - apply substring_app_l.
  - rewrite string_length_app.
    replace (String.length pre + String.length (String "."%char rest)
             - String.length pre)%nat
      with (String.length (String "."%char rest)) by lia.
    apply substring_app_r.
Qed.

Lemma stem_suffix_concat (name : string) :
  name = stem_of name +:+ suffix_of name.
Proof.
  destruct (split_point name) as [i|] eqn:Hsplit.
  - by destruct (split_point_Some name i Hsplit)
      as (pre & rest & Hname & _ & _ & _ & -> & ->).
  - unfold stem_of, suffix_of. rewrite Hsplit. by rewrite string_app_nil_r.
Qed.

Lemma suffix_of_proper (name : string) :
  suffix_of name ≠ "" → proper_suffix (suffix_of name) ∧ stem_of name ≠ "".
Proof.
  intros Hsuffix. destruct (split_point name) as [i|] eqn:Hsplit.
  - destruct (split_point_Some name i Hsplit)
      as (pre & rest & Hname & Hpre & Hrest & Hdot & -> & ->).
    split; [by exists rest|done].
  - unfold suffix_of in Hsuffix. by rewrite Hsplit in Hsuffix.
Qed.

(** X1.  [stem] and [suffix] split a name: the name is the stem followed by
    the suffix; the suffix is empty or a dot followed by a dot-free,
    non-empty rest; and with a non-empty suffix the stem is not empty. *)
Theorem stem_suffix_decompose (name : string) :
  name = stem_of name +:+ suffix_of name ∧
  (suffix_of name = "" ∨ (proper_suffix (suffix_of name) ∧ stem_of name ≠ "")).
Proof.
  split; [apply stem_suffix_concat|].
  destruct (decide (suffix_of name = "")) as [|Hsuffix]; [by left|].
  right. by apply suffix_of_proper.
Qed.

(** ** More on the resolver *)

Lemma numbered_name_regroup stem i suffix :
  numbered_name stem i suffix = (stem +:+ "_" +:+ pretty i) +:+ suffix.
Proof. unfold numbered_name. by rewrite !string_app_assoc. Qed.

Lemma final_name_regroup stem suffix :
  final_name stem suffix = (stem +:+ "_final") +:+ suffix.
Proof. unfold final_name. by rewrite !string_app_assoc. Qed.

Lemma string_app_ne_nil_l (a b : string) : a ≠ "" → a +:+ b ≠ "".
Proof. destruct a; [done|]. by rewrite string_app_cons. Qed.

(** X2.  The path handed out is always directly inside the directory, and a
    file that has an extension keeps it: the name handed out has the suffix
    of the desired name, and its stem is the desired stem, alone or followed
    by [_i] or [_final]. *)
Theorem get_unique_filename_keeps_extension (fs : filesystem) (directory : path)
    (filename : string) (max_suffix : Z) :
  suffix_of filename ≠ "" →
  let result := get_unique_filename fs directory filename max_suffix in
  parent result = directory ∧
  path_suffix result = suffix_of filename ∧
  (path_stem result = stem_of filename ∨
   (∃ i, 1 ≤ i ≤ max_suffix ∧
         path_stem result = stem_of filename +:+ "_" +:+ pretty i) ∨
   path_stem result = stem_of filename +:+ "_final").
Proof.
  intros Hsuffix result.
  destruct (suffix_of_proper filename Hsuffix) as [Hproper Hstem].
  unfold path_stem, path_suffix.
  destruct (get_unique_filename_cases fs directory filename max_suffix)
    as [[_ Hres]|[(_ & k & Hk & Hres & _)|(_ & _ & Hres)]];
    subst result; rewrite Hres.
  - rewrite parent_join, path_name_join. split; [done|]. split; [done|by left].
  - unfold candidate. rewrite parent_join, path_name_join, numbered_name_regroup.
    destruct (stem_suffix_app (stem_of filename +:+ "_" +:+ pretty k)
                (suffix_of filename)) as [-> ->]; [|done|].
    { by apply string_app_ne_nil_l. }
    split; [done|]. split; [done|]. right. left. by exists k.
  - unfold fallback. rewrite parent_join, path_name_join, final_name_regroup.
    destruct (stem_suffix_app (stem_of filename +:+ "_final")
                (suffix_of filename)) as [-> ->]; [|done|].
    { by apply string_app_ne_nil_l. }
    split; [done|]. split; [done|]. by right; right.
Qed.

Lemma get_unique_filename_keeps_extension_witness :
  path_suffix (get_unique_filename fs_numbered ["d"] "a.txt" 9999) = ".txt".
Proof.
  apply (get_unique_filename_keeps_extension fs_numbered ["d"] "a.txt" 9999).
  vm_compute. discriminate.
Defined.

(** A name that ends in a dot has no extension, but its numbered variant
    has one. *)
Example trailing_dot_gains_suffix :
  suffix_of "notes." = "" ∧
  suffix_of (numbered_name (stem_of "notes.") 1 (suffix_of "notes.")) = "._1".
Proof. vm_compute. done. Qed.

(** The numbered candidates are pairwise distinct, and none of them is the
    desired path. *)
Lemma candidate_inj directory filename i j :
  candidate directory filename i = candidate directory filename j → i = j.
Proof.
  unfold candidate, joinpath. intros [_ Heq]%app_inj_tail.
  rewrite !numbered_name_regroup in Heq.
  apply string_app_inj_r in Heq.
  rewrite <-!string_app_assoc in Heq. apply string_app_inj_length in Heq as [_ Heq].
  - by apply (inj pretty) in Heq.
  - done.
Qed.

Lemma candidate_ne_base directory filename i :
  candidate directory filename i ≠ directory </> filename.
Proof.
  unfold candidate, joinpath. intros [_ Heq]%app_inj_tail.
  pose proof (stem_suffix_concat filename) as Hname.
  rewrite Hname in Heq at 3. unfold numbered_name in Heq.
  apply (inj (String.app _)) in Heq.
  apply (f_equal String.length) in Heq.
  rewrite !string_length_app in Heq. simpl in Heq. lia.
Qed.

Lemma iterdir_elem fs directory name :
  path_exists fs (directory </> name) = true →
  directory </> name ∈ iterdir fs directory.
Proof.
  intros Hex. unfold iterdir. apply list_elem_of_filter. split.
  - split; [by destruct directory|apply parent_join].
  - unfold path_exists in Hex.
    destruct (fs !! (directory </> name)) as [nd|] eqn:Hlook; [|done].
    apply list_elem_of_fmap. exists (directory </> name, nd). split; [done|].
    by apply elem_of_map_to_list.
Qed.

(** X3.  When the directory holds no more entries than [max_suffix], one of
    the names tried is free: the path handed out does not exist. *)
Theorem get_unique_filename_fresh_in_small_directory (fs : filesystem)
    (directory : path) (filename : string) (max_suffix : Z) :
  Z.of_nat (length (iterdir fs directory)) ≤ max_suffix →
  path_exists fs (get_unique_filename fs directory filename max_suffix) = false.
Proof.
  intros Hsmall.
  destruct (get_unique_filename_cases fs directory filename max_suffix)
    as [[Hb ->]|[(_ & k & _ & -> & Hkfree & _)|(Hb & Hall & _)]]; [done..|].
  exfalso.
  set (tried := (directory </> filename) ::
                ((λ k, candidate directory filename (Z.of_nat k))
                   <$> seq 1 (Z.to_nat max_suffix))).
  assert (NoDup tried) as Hnodup.
  { subst tried. apply NoDup_cons. split.
    - intros (k & Heq & _)%list_elem_of_fmap. symmetry in Heq.
      by apply candidate_ne_base in Heq.
    - apply NoDup_fmap_2_strong; [|apply NoDup_seq].
      intros i j _ _ Heq%candidate_inj. lia. }
  assert (∀ p, p ∈ tried → p ∈ iterdir fs directory) as Hin.
  { intros p [->|(k & -> & Hk%elem_of_seq)%list_elem_of_fmap]%elem_of_cons.
    - by apply iterdir_elem.
    - apply iterdir_elem, Hall. lia. }
  pose proof (submseteq_length _ _ (NoDup_submseteq _ _ Hnodup Hin)) as Hlen.
  subst tried. simpl in Hlen. rewrite length_fmap, length_seq in Hlen. lia.
Qed.

Lemma get_unique_filename_fresh_in_small_directory_witness :
  path_exists fs_full (get_unique_filename fs_full ["d"] "a.txt" 4) = false.
Proof.
  apply get_unique_filename_fresh_in_small_directory. vm_compute. discriminate.
Defined.

(** ** Classification by extension *)

Lemma build_extension_map_listing (config : AppConfig) :
  _build_extension_map config
  = foldl (λ m p, <[p.1 := p.2]> m) ∅ (listing config).
Proof.
  unfold _build_extension_map, listing.
  generalize (∅ : gmap string string).
  induction (file_extensions config) as [|[category extensions] l IH]; intros m;
    [done|].
  csimpl. rewrite foldl_app, <-IH. f_equal.
  clear. revert m. induction extensions as [|ext exts IH]; intros m; [done|].
  csimpl. by rewrite IH.
Qed.

Lemma foldl_insert_lookup (l : list (string * string)) (m : gmap string string)
    (e : string) :
  foldl (λ m p, <[p.1 := p.2]> m) m l !! e =
    match last (filter (λ p, p.1 = e) l) with
    | Some p => Some p.2
    | None => m !! e
    end.
Proof.
  revert m. induction l as [|[e' c] l IH]; intros m; [done|].
  simpl. rewrite IH. rewrite filter_cons. simpl.
  destruct (decide (e' = e)) as [->|Hne].
  - destruct (filter _ l) as [|q l'] eqn:Hl; simpl.
    + by rewrite lookup_insert_eq.
    + destruct (last_is_Some (q :: l')) as [_ [p ->]]; done.
  - by rewrite lookup_insert_ne.
Qed.

Lemma last_filter_elem {A} (P : A → Prop) `{∀ x, Decision (P x)} (l : list A) x :
  last (filter P l) = Some x → x ∈ l ∧ P x.
Proof.
  intros Hlast. apply last_Some in Hlast as [l' Hl].
  assert (x ∈ filter P l) as Hin by (rewrite Hl; set_solver).
  by apply list_elem_of_filter in Hin as [? ?].
Qed.

Lemma last_filter_none {A} (P : A → Prop) `{∀ x, Decision (P x)} (l : list A) :
  last (filter P l) = None → ∀ x, x ∈ l → ¬ P x.
Proof.
  intros Hlast x Hin HP. apply last_None in Hlast.
  assert (x ∈ filter P l) as Hx by by apply list_elem_of_filter.
  rewrite Hlast in Hx. by apply elem_of_nil in Hx.
Qed.

(** X4.  A file is filed under a category that lists its lower-cased
    extension, and under ["other"] exactly when no category lists it. *)
Theorem get_file_category_listed (config : AppConfig) (file_path : path) :
  let extension := lower (path_suffix file_path) in
  match _build_extension_map config !! extension with
  | Some category =>
      _get_file_category config file_path = category ∧
      (extension, category) ∈ listing config
  | None =>
      _get_file_category config file_path = "other" ∧
      extension ∉ (listing config).*1
  end.
Proof.
  intros extension. unfold _get_file_category. fold extension.
  rewrite build_extension_map_listing, foldl_insert_lookup.
  destruct (last _) as [[e c]|] eqn:Hlast.
  - apply last_filter_elem in Hlast as [Hin Heq]. simpl in *. by subst e.
  - rewrite lookup_empty. split; [done|].
    intros ([e c] & Heq & Hin)%list_elem_of_fmap. simpl in Heq.
    by eapply (last_filter_none _ _ Hlast (e, c)).
Qed.

(** X5.  When an extension is listed more than once, the last listing
    decides. *)
Theorem get_file_category_last_listing (config : AppConfig) (file_path : path)
    (before after : list (string * string)) (category : string) :
  listing config = before ++ (lower (path_suffix file_path), category) :: after →
  lower (path_suffix file_path) ∉ after.*1 →
  _get_file_category config file_path = category.
Proof.
  intros Hlisting Hafter. unfold _get_file_category.
  rewrite build_extension_map_listing, foldl_insert_lookup, Hlisting.
  rewrite filter_app, filter_cons. simpl. rewrite decide_True by done.
  assert (filter (λ p : string * string, p.1 = lower (path_suffix file_path)) after
          = []) as ->.
  { clear Hlisting. induction after as [|[e c] after IH]; [done|].
    rewrite filter_cons. simpl. rewrite decide_False.
    - apply IH. intros Hin. apply Hafter. csimpl. by right.
    - intros ->. apply Hafter. csimpl. by left. }
  by rewrite last_snoc.
Qed.

Lemma get_file_category_last_listing_witness :
  _get_file_category config_twice ["d"; "a.txt"] = "text".
Proof.
  apply (get_file_category_last_listing config_twice ["d"; "a.txt"]
           [(".txt", "documents"); (".pdf", "documents")] []).
  - reflexivity.
  - vm_compute. apply not_elem_of_nil.
Defined.

Lemma NoDup_fst_unambiguous (config : AppConfig) :
  NoDup (listing config).*1 → unambiguous config.
Proof.
  intros Hnodup e c1 c2 H1 H2.
  apply list_elem_of_lookup in H1 as [i Hi], H2 as [j Hj].
  assert (i = j) as ->; [|congruence].
  eapply (NoDup_lookup _ i j e Hnodup); rewrite list_lookup_fmap.
  - by rewrite Hi.
  - by rewrite Hj.
Qed.

Lemma elem_of_listing (config : AppConfig) (e category : string) :
  (e, category) ∈ listing config ↔
  ∃ extensions ext,
    (category, extensions) ∈ file_extensions config ∧ ext ∈ extensions ∧
    lower ext = e.
Proof.
  unfold listing. rewrite list_elem_of_bind. split.
  - intros ([c exts] & Hin & Hfe). apply list_elem_of_fmap in Hin as (ext & [= -> ->] & Hext).
    by exists exts, ext.
  - intros (exts & ext & Hfe & Hext & <-). exists (category, exts).
    split; [|done]. apply list_elem_of_fmap. by exists ext.
Qed.

Lemma category_of_listed (config : AppConfig) (file_path : path)
    (category : string) :
  unambiguous config →
  (lower (path_suffix file_path), category) ∈ listing config →
  _get_file_category config file_path = category.
Proof.
  intros Hunambiguous Hin.
  unfold _get_file_category.
  rewrite build_extension_map_listing, foldl_insert_lookup.
  destruct (last _) as [[e c]|] eqn:Hlast.
  - apply last_filter_elem in Hlast as [Hc Heq]. simpl in *. subst e.
    by apply (Hunambiguous _ _ _ Hc Hin).
  - by destruct (last_filter_none _ _ Hlast _ Hin).
Qed.

(** X6.  With an unambiguous configuration, a listed extension decides the
    category, whatever the case of its letters in the file name or in the
    configuration. *)
Theorem get_file_category_unambiguous (config : AppConfig) (file_path : path)
    (category : string) (extensions : list string) (ext : string) :
  unambiguous config →
  (category, extensions) ∈ file_extensions config →
  ext ∈ extensions →
  lower ext = lower (path_suffix file_path) →
  _get_file_category config file_path = category.
Proof.
  intros Hunambiguous Hfe Hext Hlower.
  apply category_of_listed; [done|].
  apply elem_of_listing. by exists extensions, ext.
Qed.

Lemma get_file_category_unambiguous_witness :
  _get_file_category get_default ["d"; "Photo.JPG"] = "images".
Proof.
  apply (get_file_category_unambiguous get_default ["d"; "Photo.JPG"] "images"
           [".jpg"; ".jpeg"; ".png"; ".gif"; ".bmp"; ".svg"] ".jpg").
  - apply NoDup_fst_unambiguous. apply (bool_decide_unpack _). vm_compute. exact I.
  - apply (bool_decide_unpack _). vm_compute. exact I.
  - apply (bool_decide_unpack _). vm_compute. exact I.
  - reflexivity.
Defined.

Lemma get_default_extensions_lower (category : string) (extensions : list string)
    (ext : string) :
  (category, extensions) ∈ file_extensions get_default → ext ∈ extensions →
  lower ext = ext.
Proof.
  assert (Forall (λ p : string * list string, Forall (λ ext, lower ext = ext) p.2)
                 (file_extensions get_default)) as Hall
    by (apply (bool_decide_unpack _); vm_compute; exact I).
  rewrite Forall_forall in Hall. intros Hfe Hext.
  specialize (Hall _ Hfe). rewrite Forall_forall in Hall. by apply Hall.
Qed.

Lemma get_default_unambiguous : unambiguous get_default.
Proof.
  apply NoDup_fst_unambiguous. apply (bool_decide_unpack _). vm_compute. exact I.
Qed.

(** X7.  With the default configuration a file belongs to a category
    exactly when its extension, in lower case, is in the list of that
    category: the default lists are in lower case and share no
    extension. *)
Theorem get_default_categories (file_path : path) (category : string) :
  category ≠ "other" →
  (_get_file_category get_default file_path = category ↔
   ∃ extensions,
     (category, extensions) ∈ file_extensions get_default ∧
     lower (path_suffix file_path) ∈ extensions).
Proof.
  intros Hcat. split.
  - intros Hfile. unfold _get_file_category in Hfile.
    rewrite build_extension_map_listing, foldl_insert_lookup in Hfile.
    destruct (last _) as [[e c]|] eqn:Hlast; [|done].
    apply last_filter_elem in Hlast as [Hin Heq]. simpl in *. subst c.
    apply elem_of_listing in Hin as (extensions & ext & Hfe & Hext & Hlower).
    exists extensions. split; [done|].
    rewrite (get_default_extensions_lower _ _ _ Hfe Hext) in Hlower.
    by rewrite <-Heq, <-Hlower.
  - intros (extensions & Hfe & Hext).
    apply category_of_listed; [apply get_default_unambiguous|].
    apply elem_of_listing. exists extensions, (lower (path_suffix file_path)).
    split; [done|]. split; [done|].
    by apply (get_default_extensions_lower category extensions).
Qed.

Lemma get_default_categories_witness :
  _get_file_category get_default ["d"; "Report.PDF"] = "documents".
Proof.
  apply (get_default_categories ["d"; "Report.PDF"] "documents"); [done|].
  exists [".pdf"; ".doc"; ".docx"; ".txt"; ".odt"]. split.
  - apply (bool_decide_unpack _). vm_compute. exact I.
  - apply (bool_decide_unpack _). vm_compute. exact I.
Defined.

(** ** File operations *)

Lemma is_dir_exists fs p : is_dir fs p = true → path_exists fs p = true.
Proof. unfold is_dir, path_exists. by destruct (fs !! p). Qed.

Lemma is_dir_lookup fs p : is_dir fs p = true ↔ fs !! p = Some Dir.
Proof. unfold is_dir. by destruct (fs !! p) as [[]|]. Qed.

Lemma elem_of_paths (fs : filesystem) (p : path) :
  p ∈ (map_to_list fs).*1 ↔ is_Some (fs !! p).
Proof.
  rewrite list_elem_of_fmap. split.
  - intros ([q nd] & -> & Hin%elem_of_map_to_list). by exists nd.
  - intros [nd Hnd]. exists (p, nd). split; [done|]. by apply elem_of_map_to_list.
Qed.

(** X8.  The listing of a directory has no repetition and holds exactly
    the regular files below it: the immediate children, or with
    [recursive] every descendant.  A path that is missing or not a
    directory has the empty listing. *)
Theorem get_files_in_directory_spec (fs : filesystem) (directory : path)
    (recursive : bool) :
  let files := get_files_in_directory fs directory recursive in
  NoDup files ∧
  (is_dir fs directory = false → files = []) ∧
  (∀ f, f ∈ files ↔
        is_dir fs directory = true ∧ is_file fs f = true ∧
        if recursive then f ≠ directory ∧ directory `prefix_of` f
        else f ≠ [] ∧ parent f = directory).
Proof.
  intros files. subst files. unfold get_files_in_directory.
  destruct (is_dir fs directory) eqn:Hdir.
  - rewrite (is_dir_exists _ _ Hdir). simpl.
    pose proof (NoDup_fst_map_to_list fs) as Hnodup.
    destruct recursive; unfold rglob, iterdir.
    + split; [by do 2 apply NoDup_filter|]. split; [done|].
      intros f. rewrite !list_elem_of_filter, elem_of_paths, is_file_lookup.
      split; [by intros (Hf & Hcond & _)|].
      intros (_ & [content Hf] & Hne & Hpre). rewrite Hf. eauto.
    + split; [by do 2 apply NoDup_filter|]. split; [done|].
      intros f. rewrite !list_elem_of_filter, elem_of_paths, is_file_lookup.
      split; [by intros (Hf & Hcond & _)|].
      intros (_ & [content Hf] & Hne & Hpre). rewrite Hf. eauto.
  - rewrite orb_true_r. split; [apply NoDup_nil_2|]. split; [done|].
    intros f. split; [by intros ?%elem_of_nil|]. by intros [? _].
Qed.

Lemma get_files_in_directory_spec_witness :
  get_files_in_directory fs_demo ["d"; "a.pdf"] true = [].
Proof.
  apply (get_files_in_directory_spec fs_demo ["d"; "a.pdf"] true). reflexivity.
Defined.

Lemma parent_prefix (p : path) : parent p `prefix_of` p.
Proof.
  destruct (decide (p = [])) as [->|Hne]; [done|].
  exists [List.last p ""]. unfold parent. by apply app_removelast_last.
Qed.

Lemma parent_ne (p : path) : p ≠ [] → parent p ≠ p.
Proof.
  intros Hne Heq. apply (f_equal length) in Heq.
  rewrite length_parent in Heq. destruct p; [done|]. simpl in Heq. lia.
Qed.

(** X9.  Every file of the plain listing is in the recursive listing, and
    the recursive listing adds only files that lie deeper. *)
Theorem get_files_in_directory_recursive_extends (fs : filesystem)
    (directory f : path) :
  (f ∈ get_files_in_directory fs directory false →
   f ∈ get_files_in_directory fs directory true) ∧
  (f ∈ get_files_in_directory fs directory true →
   f ∉ get_files_in_directory fs directory false →
   (length directory + 2 ≤ length f)%nat).
Proof.
  pose proof (get_files_in_directory_listing fs directory) as [_ Hplain].
  unfold get_files_in_directory.
  destruct (negb (path_exists fs directory) || negb (is_dir fs directory));
    [split; by intros ?%elem_of_nil|].
  unfold rglob, iterdir. rewrite !list_elem_of_filter. split.
  - intros (Hfile & [Hne Hparent] & Hin). split; [done|]. split; [|done].
    subst directory. split; [by apply not_eq_sym, parent_ne|apply parent_prefix].
  - intros (Hfile & [Hne [rest Hrest]] & Hin) Hnot.
    destruct rest as [|name rest]; [by rewrite app_nil_r in Hrest|].
    destruct rest as [|name' rest].
    + destruct Hnot. split; [done|]. split; [|done]. subst f.
      split; [by destruct directory|apply (parent_join directory name)].
    + subst f. rewrite length_app. simpl. lia.
Qed.

Lemma get_files_in_directory_recursive_extends_witness :
  ["d"; "a.pdf"] ∈ get_files_in_directory fs_demo ["d"] true.
Proof.
  apply (get_files_in_directory_recursive_extends fs_demo ["d"] ["d"; "a.pdf"]).
  apply (bool_decide_unpack _). vm_compute. exact I.
Defined.


(** X11.  A regular file is moved to a free path inside an existing
    directory; a missing source makes the move fail and changes nothing. *)
Theorem move_file_cases (source destination : path) (w : world) :
  (∀ content,
     w_fs w !! source = Some (File content) →
     w_fs w !! destination = None →
     is_dir (w_fs w) (parent destination) = true →
     move_file source destination w
     = (Return true,
        World (<[destination := File content]> (delete source (w_fs w))) (w_log w))) ∧
  (w_fs w !! source = None → move_file source destination w = (Return false, w)).
Proof.
  split.
  - intros content Hsrc Hdst Hparent.
    unfold move_file, try_except, bind, lift_fs, ret.
    by rewrite (shutil_move_free _ _ _ content).
  - intros Hsrc. unfold move_file, try_except, bind, lift_fs, ret.
    assert (∃ e, shutil_move (w_fs w) source destination = Raise e) as [e ->]; [|done].
    unfold shutil_move, os_rename. rewrite Hsrc.
    destruct (is_dir _ destination); [|by eexists].
    destruct (path_exists _ _); by eexists.
Qed.

Lemma move_file_cases_witness :
  move_file ["d"; "a.pdf"] ["d"; "documents"; "a.pdf"] (World fs_demo [])
  = (Return true,
     World (<[ ["d"; "documents"; "a.pdf"] := File "A" ]>
              (delete ["d"; "a.pdf"] fs_demo)) []) ∧
  move_file ["d"; "nothing"] ["d"; "documents"; "a.pdf"] (World fs_demo [])
  = (Return false, World fs_demo []).
Proof.
  destruct (move_file_cases ["d"; "a.pdf"] ["d"; "documents"; "a.pdf"]
              (World fs_demo [])) as [Hmoved _].
  destruct (move_file_cases ["d"; "nothing"] ["d"; "documents"; "a.pdf"]
              (World fs_demo [])) as [_ Hfailed].
  split.
  - apply (Hmoved "A"); reflexivity.
  - apply Hfailed. reflexivity.
Defined.

(** ** Creating directories *)

Lemma os_mkdir_return fs p fs' :
  os_mkdir fs p = Return fs' →
  fs !! p = None ∧ is_dir fs (parent p) = true ∧ fs' = <[p := Dir]> fs.
Proof.
  unfold os_mkdir, path_exists, is_dir.
  destruct (fs !! p); [done|].
  destruct (fs !! parent p) as [[]|]; try done. by intros [= <-].
Qed.

Lemma os_mkdir_effect fs p fs' g :
  os_mkdir fs p = Return fs' →
  is_dir fs' p = true ∧
  (fs' !! g = fs !! g ∨ (fs !! g = None ∧ fs' !! g = Some Dir ∧ g `prefix_of` p)).
Proof.
  intros (Hp & _ & ->)%os_mkdir_return. split.
  - apply is_dir_lookup, lookup_insert_eq.
  - destruct (decide (g = p)) as [->|Hne].
    + right. by rewrite lookup_insert_eq.
    + left. by rewrite lookup_insert_ne.
Qed.

Lemma mkdir_parents_effect fuel fs p fs' :
  mkdir_parents fuel fs p = Return fs' →
  is_dir fs' p = true ∧
  ∀ g, fs' !! g = fs !! g ∨
       (fs !! g = None ∧ fs' !! g = Some Dir ∧ g `prefix_of` p).
Proof.
  revert fs p fs'. induction fuel as [|fuel IH]; intros fs p fs'; simpl.
  - destruct (os_mkdir fs p) as [fs1|e] eqn:Hmk.
    + intros [= <-]. split; [|intros g]; by eapply os_mkdir_effect.
    + destruct e; destruct (is_dir fs p) eqn:Hdir; intros [= <-]; by split; [|left].
  - destruct (os_mkdir fs p) as [fs1|e] eqn:Hmk.
    + intros [= <-]. split; [|intros g]; by eapply os_mkdir_effect.
    + destruct e;
        try (destruct (is_dir fs p) eqn:Hdir; [|done]; intros [= <-];
             by split; [|left]).
      case_bool_decide; [done|].
      destruct (mkdir_parents fuel fs (parent p)) as [fs1|e] eqn:Hrec; [|done].
      destruct (IH _ _ _ Hrec) as [_ Hfs1].
      assert (∀ g, fs1 !! g = fs !! g ∨
                   (fs !! g = None ∧ fs1 !! g = Some Dir ∧ g `prefix_of` p))
        as Hfs1'.
      { intros g. destruct (Hfs1 g) as [?|(? & ? & Hpre)]; [by left|right].
        split; [done|]. split; [done|]. etrans; [done|apply parent_prefix]. }
      destruct (os_mkdir fs1 p) as [fs2|e] eqn:Hmk2.
      * intros [= <-]. split; [by eapply (os_mkdir_effect _ _ _ p)|].
        intros g. destruct (os_mkdir_effect _ _ _ g Hmk2) as [_ [Heq|(Hg1 & Hg2 & Hpre)]].
        -- rewrite Heq. apply Hfs1'.
        -- destruct (Hfs1' g) as [Heq|(? & ? & _)]; [|congruence].
           right. by rewrite <-Heq.
      * destruct (is_dir fs1 p) eqn:Hdir; [|done]. by intros [= <-].
Qed.

(** X12.  When [ensure_directory] returns, the path is a directory, the
    log is as before, and the file system differs from the old one only by
    new directories on the way from the root to the path. *)
Theorem ensure_directory_return (p : path) (w w' : world) :
  ensure_directory p w = (Return tt, w') →
  is_dir (w_fs w') p = true ∧
  w_log w' = w_log w ∧
  ∀ g, w_fs w' !! g = w_fs w !! g ∨
       (w_fs w !! g = None ∧ w_fs w' !! g = Some Dir ∧ g `prefix_of` p).
Proof.
  unfold ensure_directory, lift_fs.
  destruct (mkdir_parents (length p) (w_fs w) p) as [fs'|e] eqn:Hmk; [|done].
  intros [= <-]. simpl. apply mkdir_parents_effect in Hmk as [Hdir Hframe]. done.
Qed.

Lemma ensure_directory_return_witness :
  is_dir (w_fs (ensure_directory ["d"; "x"; "y"] (World fs_demo [])).2)
         ["d"; "x"; "y"] = true.
Proof.
  refine (proj1 (ensure_directory_return ["d"; "x"; "y"] (World fs_demo [])
                   (ensure_directory ["d"; "x"; "y"] (World fs_demo [])).2 _)).
  vm_compute. reflexivity.
Defined.

(** X13.  An existing directory is accepted as it is, and a regular file
    at the path makes [ensure_directory] raise [FileExistsError]; in both
    cases nothing changes. *)
Theorem ensure_directory_existing (p : path) (w : world) :
  (is_dir (w_fs w) p = true → ensure_directory p w = (Return tt, w)) ∧
  (is_file (w_fs w) p = true →
   ensure_directory p w = (Raise (FileExistsError p), w)).
Proof.
  assert (is_Some (w_fs w !! p) → os_mkdir (w_fs w) p = Raise (FileExistsError p))
    as Hmk.
  { intros [nd Hnd]. unfold os_mkdir, path_exists. by rewrite Hnd. }
  unfold ensure_directory, lift_fs. split.
  - intros Hdir. pose proof Hdir as Hex. apply is_dir_lookup in Hex.
    destruct (length p); simpl; rewrite Hmk, ?Hdir by (by rewrite Hex);
      by destruct w.
  - intros [content Hfile]%is_file_lookup.
    assert (is_dir (w_fs w) p = false) as Hdir by (unfold is_dir; by rewrite Hfile).
    destruct (length p); simpl; by rewrite Hmk, ?Hdir by (by rewrite Hfile).
Qed.

Lemma ensure_directory_existing_witness :
  ensure_directory ["d"; "documents"] (World fs_demo [])
  = (Return tt, World fs_demo []) ∧
  ensure_directory ["d"; "notes"] (World fs_demo [])
  = (Raise (FileExistsError ["d"; "notes"]), World fs_demo []).
Proof.
  split.
  - apply (ensure_directory_existing ["d"; "documents"] (World fs_demo [])).
    reflexivity.
  - apply (ensure_directory_existing ["d"; "notes"] (World fs_demo [])).
    reflexivity.
Defined.

Lemma prefix_of_parent (q p : path) : q `prefix_of` p → q ≠ p → q `prefix_of` parent p.
Proof.
  intros [rest ->] Hne.
  destruct (exists_last (l := rest)) as (rest' & name & ->).
  { intros ->. by rewrite app_nil_r in Hne. }
  rewrite app_assoc. unfold parent. rewrite removelast_last. by exists rest'.
Qed.

Lemma mkdir_parents_succeeds fuel :
  ∀ fs p q,
    q `prefix_of` p → is_dir fs q = true →
    (length p ≤ length q + fuel)%nat →
    (∀ g, g `prefix_of` p → is_file fs g = false) →
    ∃ fs', mkdir_parents fuel fs p = Return fs'.
Proof.
  induction fuel as [|fuel IH]; intros fs p q Hpre Hq Hlen Hfree.
  - assert (p = q) as ->.
    { destruct Hpre as [rest ->]. rewrite length_app in Hlen.
      destruct rest; [by rewrite app_nil_r|simpl in Hlen; lia]. }
    exists fs. simpl. unfold os_mkdir. rewrite (is_dir_exists _ _ Hq). by rewrite Hq.
  - simpl. destruct (os_mkdir fs p) as [fs1|e] eqn:Hmk; [by eexists|].
    unfold os_mkdir, path_exists in Hmk.
    destruct (fs !! p) as [nd|] eqn:Hp.
    + injection Hmk as <-.
      assert (is_dir fs p = true) as ->; [|by eexists].
      specialize (Hfree p ltac:(done)). unfold is_file, is_dir in *.
      rewrite Hp in *. by destruct nd.
    + assert (q ≠ p) as Hne.
      { intros ->. apply is_dir_lookup in Hq. congruence. }
      pose proof (prefix_of_parent _ _ Hpre Hne) as Hpre'.
      destruct (fs !! parent p) as [[content|]|] eqn:Hparent; [| done |].
      * specialize (Hfree (parent p) (parent_prefix p)).
        unfold is_file in Hfree. by rewrite Hparent in Hfree.
      * injection Hmk as <-.
        rewrite bool_decide_eq_false_2.
        2:{ intros Heq. rewrite Heq in Hpre'.
            destruct p; [|by apply parent_ne in Heq].
            apply prefix_nil_inv in Hpre. done. }
        destruct (IH fs (parent p) q) as [fs1 Hrec]; [done|done| |..].
        { rewrite length_parent.
          assert (length q < length p)%nat; [|lia].
          destruct Hpre as [rest ->]. rewrite length_app.
          destruct rest; [by rewrite app_nil_r in Hne|simpl; lia]. }
        { intros g Hg. apply Hfree. etrans; [done|apply parent_prefix]. }
        rewrite Hrec.
        destruct (mkdir_parents_effect _ _ _ _ Hrec) as [Hdir Hframe].
        assert (os_mkdir fs1 p = Return (<[p := Dir]> fs1)) as ->; [|by eexists].
        unfold os_mkdir, path_exists.
        destruct (Hframe p) as [->|(_ & _ & Hpp)].
        -- rewrite Hp. apply is_dir_lookup in Hdir. by rewrite Hdir.
        -- destruct p as [|x p]; [by apply prefix_nil_inv in Hpre|].
           apply prefix_length in Hpp. rewrite length_parent in Hpp.
           simpl in Hpp. lia.
Qed.

(** X14.  [ensure_directory] returns whenever some ancestor of the path,
    or the path itself, is a directory and no regular file stands on the
    way. *)
Theorem ensure_directory_succeeds (p q : path) (w : world) :
  q `prefix_of` p → is_dir (w_fs w) q = true →
  (∀ g, g `prefix_of` p → is_file (w_fs w) g = false) →
  ∃ w', ensure_directory p w = (Return tt, w') ∧ is_dir (w_fs w') p = true.
Proof.
  intros Hpre Hq Hfree. unfold ensure_directory, lift_fs.
  destruct (mkdir_parents_succeeds (length p) (w_fs w) p q) as [fs' Hmk];
    [done|done|lia|done|].
  rewrite Hmk. eexists. split; [done|]. simpl.
  by apply mkdir_parents_effect in Hmk as [? _].
Qed.

Lemma ensure_directory_succeeds_witness :
  ∃ w', ensure_directory ["d"; "x"; "y"] (World fs_demo []) = (Return tt, w') ∧
        is_dir (w_fs w') ["d"; "x"; "y"] = true.
Proof.
  apply (ensure_directory_succeeds ["d"; "x"; "y"] ["d"] (World fs_demo [])).
  - by exists ["x"; "y"].
  - reflexivity.
  - intros g [rest Hrest]. simpl.
    destruct g as [|a [|b [|c [|? ?]]]]; simplify_eq/=; reflexivity.
Defined.

(** ** The statistics of the organizer *)

(** The loop body with the statistics it returns. *)
Lemma organize_file_step config directory f stats processed w :
  f ∉ processed →
  match file_turn config directory f (w_fs w) with
  | Skipped =>
      ∃ msg, organize_file config directory f (stats, processed) w =
             (Return (stats, processed), World (w_fs w) (w_log w ++ [(DEBUG, msg)]))
  | Aborted e =>
      organize_file config directory f (stats, processed) w = (Raise e, w)
  | Attempted _ _ true fs' =>
      ∃ msg,
        organize_file config directory f (stats, processed) w =
        (Return (<[_get_file_category config f :=
                     default 0 (stats !! _get_file_category config f) + 1]> stats,
                 {[f]} ∪ processed),
         World fs' (w_log w ++ [(INFO, msg)]))
  | Attempted _ _ false fs' =>
      ∃ msg, organize_file config directory f (stats, processed) w =
             (Return (stats, processed), World fs' (w_log w ++ [(ERROR, msg)]))
  end.
Proof.
  intros Hfresh. unfold file_turn, organize_file.
  rewrite (bool_decide_eq_false_2 (f ∈ processed)) by done.
  case_bool_decide as Hcat; [by eexists|].
  unfold move_file, ensure_directory, try_except, bind, lift_fs, get_fs, ret, log.
  destruct w as [fs lg]; simpl.
  destruct (mkdir_parents _ fs _) as [fs1|e]; [simpl|done].
  destruct (shutil_move fs1 f _) as [fs2|e]; simpl; by eauto.
Qed.

Lemma stats_total_insert (stats : gmap string Z) (category : string) (n : Z) :
  stats_total (<[category := default 0 (stats !! category) + n]> stats)
  = stats_total stats + n.
Proof.
  unfold stats_total.
  assert (∀ (m : gmap string Z) i x, m !! i = None →
            map_fold (λ _ count total, count + total) 0 (<[i := x]> m)
            = x + map_fold (λ _ count total, count + total) 0 m) as Hins.
  { intros m i x Hi. apply (map_fold_insert_L (λ _ count total, count + total));
      [|done]. intros. lia. }
  destruct (stats !! category) as [d|] eqn:Hc; simpl.
  - rewrite <-(insert_delete_id stats category d) at 2 by done.
    rewrite <-insert_delete_eq.
    rewrite !Hins by apply lookup_delete_eq. lia.
  - rewrite Hins by done. lia.
Qed.

Lemma moved_total_cons a trace :
  moved_total (a :: trace)
  = (if a_moved a then 1 else 0) + moved_total trace.
Proof.
  unfold moved_total. rewrite filter_cons.
  destruct (a_moved a); case_decide; try done; simpl; lia.
Qed.

Lemma moved_into_cons config category a trace :
  moved_into config category (a :: trace)
  = (if a_moved a
     then if decide (_get_file_category config (a_source a) = category)
          then 1 else 0
     else 0) + moved_into config category trace.
Proof.
  unfold moved_into. rewrite filter_cons.
  destruct (a_moved a);
    destruct (decide (_get_file_category config (a_source a) = category));
    case_decide as Hboth; try done; simpl; try lia;
    solve [by destruct Hboth | by destruct Hboth as [? ?]].
Qed.

Lemma moved_into_nonneg config category trace : 0 ≤ moved_into config category trace.
Proof. unfold moved_into. lia. Qed.

Lemma organize_loop_counts config directory files :
  ∀ stats processed w vars',
    NoDup files →
    (∀ f, f ∈ files → f ∉ processed) →
    (for_each files (organize_file config directory) (stats, processed) w).1
    = Return vars' →
    let trace := organize_trace config directory files processed (w_fs w) in
    (∀ category,
       vars'.1 !! category
       = add_count (stats !! category) (moved_into config category trace)) ∧
    stats_total vars'.1 = stats_total stats + moved_total trace.
Proof.
  induction files as [|f files IH]; intros stats processed w vars' Hnodup Hfresh.
  { simpl. intros [= <-]. simpl. split; [done|]. unfold moved_total. simpl. lia. }
  apply NoDup_cons in Hnodup as [Hf Hnodup].
  pose proof (Hfresh f ltac:(by left)) as Hfp.
  simpl organize_trace. rewrite for_each_cons.
  rewrite (bool_decide_eq_false_2 (f ∈ processed)) by done.
  pose proof (organize_file_step config directory f stats processed w Hfp) as Hrun.
  destruct (file_turn config directory f (w_fs w))
    as [|e|target existed [|] fs'] eqn:Hturn.
  - destruct Hrun as [msg ->]. intros Hret.
    apply (IH stats processed _ vars' Hnodup) in Hret; [done|].
    intros g Hg. apply Hfresh. by right.
  - by rewrite Hrun.
  - destruct Hrun as [msg ->]. intros Hret.
    apply (IH _ _ _ vars' Hnodup) in Hret as [Hcount Htotal].
    2:{ intros g Hg [->%elem_of_singleton|Hin]%elem_of_union; [done|].
        by apply (Hfresh g); [right|]. }
    simpl in Hcount, Htotal. split.
    + intros category. rewrite Hcount, moved_into_cons. simpl.
      pose proof (moved_into_nonneg config category
                    (organize_trace config directory files ({[f]} ∪ processed) fs')).
      unfold add_count.
      destruct (decide (_get_file_category config f = category)) as [<-|Hne].
      * rewrite lookup_insert_eq. simpl.
        rewrite (decide_False (P := 1 + _ = 0)) by lia.
        case_decide; f_equal; lia.
      * rewrite lookup_insert_ne by done.
        by destruct (decide (moved_into _ _ _ = 0)); case_decide; try lia.
    + rewrite Htotal, stats_total_insert, moved_total_cons. simpl. lia.
  - destruct Hrun as [msg ->]. intros Hret.
    apply (IH stats processed _ vars' Hnodup) in Hret as [Hcount Htotal].
    2:{ intros g Hg. apply Hfresh. by right. }
    simpl in Hcount, Htotal. split.
    + intros category. by rewrite Hcount, moved_into_cons.
    + by rewrite Htotal, moved_total_cons.
Qed.

(** X15.  The statistics of a run count the files moved: a category is in
    the result exactly when at least one file was moved into it, with the
    number of those files, and the total that is logged is the number of
    files moved. *)
Theorem organize_directory_counts (config : AppConfig) (directory : path)
    (w : world) (stats : gmap string Z) :
  is_dir (w_fs w) directory = true →
  (organize_directory config directory w).1 = Return stats →
  let trace := organize_trace config directory
                 (get_files_in_directory (w_fs w) directory false) ∅ (w_fs w) in
  (∀ category,
     stats !! category
     = if decide (moved_into config category trace = 0) then None
       else Some (moved_into config category trace)) ∧
  stats_total stats = moved_total trace.
Proof.
  intros Hdir Hret trace.
  pose proof (organize_directory_run config directory w Hdir) as Hrun.
  simpl in Hrun.
  destruct (for_each _ _ _ _).1 as [vars|e] eqn:Hloop.
  - destruct Hrun as (lines & Hrun & _). rewrite Hrun in Hret.
    injection Hret as <-.
    destruct (get_files_in_directory_listing (w_fs w) directory) as [Hnodup _].
    apply organize_loop_counts in Hloop as [Hcount Htotal]; [|done|set_solver].
    simpl in Hcount, Htotal. split.
    + intros category. rewrite Hcount, lookup_empty. unfold add_count. simpl.
      subst trace. by rewrite Z.add_0_l.
    + rewrite Htotal. unfold stats_total. by rewrite map_fold_empty.
  - rewrite Hrun in Hret. simpl in Hret. congruence.
Qed.

Lemma organize_directory_counts_witness :
  stats_total {[ "documents" := 2 ]}
  = moved_total (organize_trace get_default ["d"]
                   (get_files_in_directory fs_demo ["d"] false) ∅ fs_demo).
Proof.
  refine (proj2 (organize_directory_counts get_default ["d"] (World fs_demo [])
                   {[ "documents" := 2 ]} _ _)).
  - reflexivity.
  - vm_compute. reflexivity.
Defined.

(** ** What a run can and cannot change *)

(** One attempted turn: the category folder is created if missing, and on
    success the file goes to the resolved path or, that path being a
    directory, into it. *)
Lemma file_turn_effect config directory f fs target existed moved fs' :
  is_dir fs directory = true →
  file_turn config directory f fs = Attempted target existed moved fs' →
  ∃ fs1 name,
    (fs1 = fs ∨
     (fs !! (directory </> _get_file_category config f) = None ∧
      fs1 = <[directory </> _get_file_category config f := Dir]> fs)) ∧
    target = directory </> _get_file_category config f </> name ∧
    ((moved = false ∧ fs' = fs1) ∨
     (moved = true ∧
      ∃ content real,
        fs1 !! f = Some (File content) ∧
        (real = target ∨ real = target </> path_name f) ∧
        fs' = <[real := File content]> (delete f fs1))).
Proof.
  intros Hdir. unfold file_turn. case_bool_decide; [done|].
  rewrite mkdir_parents_child by done.
  set (target_dir := directory </> _get_file_category config f).
  assert (∀ fs1, (fs1 = fs ∨ (fs !! target_dir = None ∧ fs1 = <[target_dir := Dir]> fs)) →
            match shutil_move fs1 f
                    (get_unique_filename fs1 target_dir (path_name f)
                       (max_duplicate_suffix config)) with
            | Return fs2 =>
                Attempted (get_unique_filename fs1 target_dir (path_name f)
                             (max_duplicate_suffix config))
                  (path_exists fs1 (get_unique_filename fs1 target_dir (path_name f)
                                      (max_duplicate_suffix config))) true fs2
            | Raise _ =>
                Attempted (get_unique_filename fs1 target_dir (path_name f)
                             (max_duplicate_suffix config))
                  (path_exists fs1 (get_unique_filename fs1 target_dir (path_name f)
                                      (max_duplicate_suffix config))) false fs1
            end = Attempted target existed moved fs' →
            ∃ fs1 name,
              (fs1 = fs ∨ (fs !! target_dir = None ∧ fs1 = <[target_dir := Dir]> fs)) ∧
              target = target_dir </> name ∧
              ((moved = false ∧ fs' = fs1) ∨
               (moved = true ∧
                ∃ content real,
                  fs1 !! f = Some (File content) ∧
                  (real = target ∨ real = target </> path_name f) ∧
                  fs' = <[real := File content]> (delete f fs1)))) as Hmove.
  { intros fs1 Hfs1.
    destruct (get_unique_filename_shape fs1 target_dir (path_name f)
                (max_duplicate_suffix config)) as [name Hshape].
    rewrite Hshape.
    destruct (shutil_move fs1 f _) as [fs2|e] eqn:Hmv; intros [= <- <- <- <-];
      exists fs1, name; (split; [done|]); (split; [done|]); [right|by left].
    split; [done|].
    apply shutil_move_return in Hmv as (content & real & Hsrc & Hreal & _ & ->).
    by exists content, real. }
  destruct (fs !! target_dir) as [[content|]|] eqn:Htd; [done| |].
  - apply Hmove. by left.
  - apply Hmove. by right.
Qed.

Lemma inside_join directory name : inside directory (directory </> name).
Proof. split; [apply join_ne_self|by exists [name]]. Qed.

Lemma inside_trans directory p name : inside directory p → inside directory (p </> name).
Proof.
  intros [Hne [rest ->]]. split.
  - intros Heq. apply (f_equal length) in Heq.
    rewrite length_join, length_app in Heq. lia.
  - exists (rest ++ [name]). unfold joinpath. by rewrite app_assoc.
Qed.

(** A turn changes nothing outside the directory, and not the directory. *)
Lemma file_turn_outside config directory f fs target existed moved fs' g :
  is_dir fs directory = true →
  inside directory f →
  file_turn config directory f fs = Attempted target existed moved fs' →
  ¬ inside directory g →
  fs' !! g = fs !! g.
Proof.
  intros Hdir Hf Hturn Hg.
  destruct (file_turn_effect _ _ _ _ _ _ _ _ Hdir Hturn)
    as (fs1 & name & Hfs1 & -> & Hfs').
  assert (fs1 !! g = fs !! g) as Hg1.
  { destruct Hfs1 as [->|[_ ->]]; [done|].
    rewrite lookup_insert_ne; [done|]. intros <-. apply Hg, inside_join. }
  destruct Hfs' as [[_ ->]|(_ & content & real & _ & Hreal & ->)]; [done|].
  rewrite lookup_insert_ne, lookup_delete_ne; [done|by intros <-|].
  intros <-. apply Hg.
  destruct Hreal as [->| ->]; [|apply inside_trans];
    apply inside_trans, inside_join.
Qed.


Lemma listing_inside fs directory f :
  f ∈ get_files_in_directory fs directory false → inside directory f.
Proof.
  intros Hf. destruct (get_files_in_directory_listing fs directory) as [_ Hl].
  destruct (Hl f Hf) as (_ & _ & ->). apply inside_join.
Qed.




(** ** A category folder whose name is taken *)

Lemma file_turn_blocked config directory f fs :
  is_dir fs directory = true →
  _get_file_category config f ≠ "other" →
  is_file fs (directory </> _get_file_category config f) = true →
  file_turn config directory f fs
  = Aborted (FileExistsError (directory </> _get_file_category config f)).
Proof.
  intros Hdir Hcat [content Hfile]%is_file_lookup. unfold file_turn.
  rewrite bool_decide_eq_false_2 by done.
  rewrite mkdir_parents_child by done. by rewrite Hfile.
Qed.

Lemma file_turn_aborted config directory f fs e :
  is_dir fs directory = true →
  file_turn config directory f fs = Aborted e →
  _get_file_category config f ≠ "other" ∧
  e = FileExistsError (directory </> _get_file_category config f).
Proof.
  intros Hdir. unfold file_turn. case_bool_decide; [done|].
  rewrite mkdir_parents_child by done.
  destruct (fs !! _) as [[content|]|].
  - by intros [= <-].
  - by destruct (shutil_move _ _ _).
  - by destruct (shutil_move _ _ _).
Qed.

Lemma organize_loop_blocked config directory files :
  ∀ stats processed w f,
    is_dir (w_fs w) directory = true →
    (∀ g, g ∈ files → (g ∉ processed) ∧ inside directory g) →
    NoDup files →
    f ∈ files →
    _get_file_category config f ≠ "other" →
    is_file (w_fs w) (directory </> _get_file_category config f) = true →
    _get_file_category config (directory </> _get_file_category config f) = "other" →
    ∃ f', f' ∈ files ∧ _get_file_category config f' ≠ "other" ∧
          (for_each files (organize_file config directory) (stats, processed) w).1
          = Raise (FileExistsError (directory </> _get_file_category config f')).
Proof.
  induction files as [|h files IH];
    intros stats processed w f Hdir Hfiles Hnodup Hf Hcat Hblock Hother.
  { by apply elem_of_nil in Hf. }
  apply NoDup_cons in Hnodup as [Hh Hnodup].
  destruct (Hfiles h ltac:(by left)) as [Hfresh Hinside].
  rewrite for_each_cons.
  pose proof (organize_file_turn config directory h stats processed w Hfresh) as Hrun.
  destruct (decide (h = f)) as [->|Hne].
  { rewrite file_turn_blocked in Hrun by done. rewrite Hrun.
    exists f. split; [by left|done]. }
  apply elem_of_cons in Hf as [->|Hf]; [done|].
  assert (∀ vars' w',
            is_dir (w_fs w') directory = true →
            is_file (w_fs w') (directory </> _get_file_category config f) = true →
            (∀ g, g ∈ files → g ∉ vars'.2) →
            ∃ f', f' ∈ h :: files ∧ _get_file_category config f' ≠ "other" ∧
                  (for_each files (organize_file config directory) vars' w').1
                  = Raise (FileExistsError
                             (directory </> _get_file_category config f')))
    as Hnext.
  { intros [stats' processed'] w' Hdir' Hblock' Hfresh'.
    destruct (IH stats' processed' w' f) as (f' & Hf' & Hcat' & Hraise);
      try done.
    - intros g Hg. split; [by apply Hfresh'|]. apply Hfiles. by right.
    - exists f'. split; [by right|done]. }
  assert (∀ g, g ∈ files → g ∉ processed) as Hrest
    by (intros g Hg; apply Hfiles; by right).
  destruct (file_turn config directory h (w_fs w))
    as [|e|target existed moved fs'] eqn:Hturn.
  - destruct Hrun as [msg ->]. by apply Hnext.
  - rewrite Hrun. apply file_turn_aborted in Hturn as [Hcath ->]; [|done].
    exists h. split; [by left|done].
  - assert (is_dir fs' directory = true) as Hdir'.
    { unfold is_dir in *.
      rewrite (file_turn_outside _ _ _ _ _ _ _ _ directory Hdir Hinside Hturn);
        [done|by intros [? _]]. }
    assert (is_file fs' (directory </> _get_file_category config f) = true)
      as Hblock'.
    { unfold is_file in *.
      rewrite (file_turn_frame _ _ _ _ _ _ _ _ _ Hturn); [done| | |].
      - by rewrite length_join.
      - intros <-. apply file_turn_category in Hturn. done.
      - by destruct (w_fs w !! _). }
    destruct moved.
    + destruct Hrun as (msg & stats' & ->). apply Hnext; [done..|].
      simpl. intros g Hg [->%elem_of_singleton|Hin]%elem_of_union; [done|].
      by apply (Hrest g).
    + destruct Hrun as (msg & ->). by apply Hnext.
Qed.

(** X17.  A regular file that bears the name of a category folder, and is
    itself left alone by the organizer, aborts the run: as soon as a file
    of such a category is reached, creating the folder raises
    [FileExistsError], which [organize_directory] does not catch. *)
Theorem organize_directory_blocked (config : AppConfig) (directory f : path)
    (w : world) :
  is_dir (w_fs w) directory = true →
  f ∈ get_files_in_directory (w_fs w) directory false →
  _get_file_category config f ≠ "other" →
  is_file (w_fs w) (directory </> _get_file_category config f) = true →
  _get_file_category config (directory </> _get_file_category config f) = "other" →
  ∃ f', f' ∈ get_files_in_directory (w_fs w) directory false ∧
        _get_file_category config f' ≠ "other" ∧
        (organize_directory config directory w).1
        = Raise (FileExistsError (directory </> _get_file_category config f')).
Proof.
  intros Hdir Hf Hcat Hblock Hother.
  pose proof (organize_directory_run config directory w Hdir) as Hrun.
  simpl in Hrun.
  destruct (get_files_in_directory_listing (w_fs w) directory) as [Hnodup _].
  destruct (organize_loop_blocked config directory
              (get_files_in_directory (w_fs w) directory false) ∅ ∅
              (World (w_fs w)
                 (w_log w ++ [(INFO, "Starting file organization in: " +:+
                                     path_str directory)])) f)
    as (f' & Hf' & Hcat' & Hraise); try done.
  { intros g Hg. split; [set_solver|by eapply listing_inside]. }
  exists f'. split; [done|]. split; [done|].
  rewrite Hraise in Hrun. by rewrite Hrun.
Qed.

Lemma organize_directory_blocked_witness :
  ∃ f', f' ∈ get_files_in_directory fs_blocked ["d"] false ∧
        _get_file_category get_default f' ≠ "other" ∧
        (organize_directory get_default ["d"] (World fs_blocked [])).1
        = Raise (FileExistsError (["d"] </> _get_file_category get_default f')).
Proof.
  apply (organize_directory_blocked get_default ["d"] ["d"; "a.pdf"]
           (World fs_blocked [])).
  - reflexivity.
  - apply (bool_decide_unpack _). vm_compute. exact I.
  - vm_compute. discriminate.
  - reflexivity.
  - reflexivity.
Defined.

(** ** Running the organizer again *)





(** ** Stripping whitespace *)




















(** ** The frame [clean] returns *)









(** X22.  [clean] never empties a table: of a table with at least one row
    the first row is kept, so the number of rows removed is smaller than
    the number of rows. *)
Theorem clean_keeps_first_row `{TabularIO} (df : DataFrame) (w : world) :
  rectangular df → (0 < len df)%nat →
  ∃ cleaned stats w' removed,
    clean df w = (Return (cleaned, stats), w') ∧
    (0 < len cleaned)%nat ∧
    stats !! "rows_removed" = Some removed ∧
    0 ≤ removed < Z.of_nat (len df) ∧
    head (rows_of (drop_duplicates df)) = head (rows_of df).
Proof.
  intros Hrect Hrows.
  destruct (clean_row_statistics df w Hrect)
    as (lines & stats & Hrun & Hlen & _ & _ & _ & _ & Hremoved).
  pose proof (len_drop_duplicates df Hrect) as Hdrop.
  pose proof (length_rows_of df Hrect) as Hl.
  pose proof (length_rows_of (drop_duplicates df)
                (rectangular_select _ _ Hrect)) as Hl'.
  pose proof (rows_of_drop_duplicates df) as Hkeep.
  assert (head (rows_of (drop_duplicates df)) = head (rows_of df) ∧
          (0 < length (rows_of (drop_duplicates df)))%nat) as [Hhead Hpos].
  { rewrite Hkeep. destruct (rows_of df) as [|r rows]; [simpl in Hl; lia|].
    unfold keep_first. simpl. split; [done|lia]. }
  eexists (cleaned_frame df), stats, _, _.
  split; [exact Hrun|]. split; [lia|]. split; [exact Hremoved|].
  split; [|done]. unfold count_true in *. lia.
Qed.

Lemma clean_keeps_first_row_witness :
  head (rows_of (drop_duplicates df_abaca)) = head (rows_of df_abaca).
Proof.
  destruct (clean_keeps_first_row (H := null_io) df_abaca (World ∅ []))
    as (cleaned & stats & w' & removed & _ & _ & _ & _ & Hhead).
  - apply df_abaca_rectangular.
  - simpl. lia.
  - exact Hhead.
Defined.

(** X23.  [_remove_duplicates] writes its one line exactly when it finds a
    duplicate, returns its argument when it finds none, and finds none in
    its own result: a second call returns the frame unchanged and logs
    nothing. *)
Theorem remove_duplicates_twice (df : DataFrame) (w : world) :
  rectangular df →
  ∃ deduplicated w1,
    _remove_duplicates df w = (Return deduplicated, w1) ∧
    w_fs w1 = w_fs w ∧
    (w_log w1 = w_log w ↔ count_true (duplicated df) = 0) ∧
    (count_true (duplicated df) = 0 → deduplicated = df) ∧
    _remove_duplicates deduplicated w1 = (Return deduplicated, w1).
Proof.
  intros Hrect.
  assert (count_true (duplicated (drop_duplicates df)) = 0) as Hnone.
  { apply duplicated_NoDup. rewrite rows_of_drop_duplicates.
    apply keep_first_from_NoDup. }
  assert (0 ≤ count_true (duplicated df)) as Hnonneg by (unfold count_true; lia).
  unfold _remove_duplicates at 1. case_bool_decide as Hdup.
  - unfold bind, log, ret. simpl. eexists _, _. split; [done|].
    split; [done|]. split; [|split; [lia|]].
    + split; [|lia]. simpl. intros Heq. apply (f_equal length) in Heq.
      rewrite length_app in Heq. simpl in Heq. lia.
    + unfold _remove_duplicates. rewrite Hnone.
      by rewrite bool_decide_eq_false_2 by lia.
  - unfold ret. exists df, w. split; [done|]. split; [done|].
    split; [split; [lia|done]|]. split; [done|].
    unfold _remove_duplicates, ret. by rewrite bool_decide_eq_false_2.
Qed.

Lemma remove_duplicates_twice_witness :
  ∃ deduplicated w1,
    _remove_duplicates df_abaca (World ∅ []) = (Return deduplicated, w1) ∧
    _remove_duplicates deduplicated w1 = (Return deduplicated, w1).
Proof.
  destruct (remove_duplicates_twice df_abaca (World ∅ []) df_abaca_rectangular)
    as (deduplicated & w1 & Hfirst & _ & _ & _ & Hsecond).
  by exists deduplicated, w1.
Defined.

(** ** The median *)







(** ** [clean_csv] from end to end *)

Lemma clean_csv_valid `{TabularIO} file_path output_path w content :
  w_fs w !! file_path = Some (File content) →
  clean_csv file_path output_path w
  = try_except
      (df <- load file_path ;;
       result <- clean df ;;
       let '(df_cleaned, stats) := result in
       ensure_directory (parent output_path) ;;;
       write_text output_path (to_csv df_cleaned) ;;;
       _log_cleaning_stats stats (path_name file_path) ;;;
       log INFO ("Cleaned data saved to: " +:+ path_str output_path) ;;;
       ret stats)
      (λ e,
         log ERROR ("Error cleaning CSV " +:+ path_name file_path +:+ ": " +:+
                    exn_str e) ;;;
         ret ∅)
      (World (w_fs w)
         (w_log w ++ [(INFO, "Starting data cleaning: " +:+ path_name file_path)])).
Proof.
  intros Hfile. unfold clean_csv, bind at 1, get_fs.
  unfold path_exists, is_file. rewrite Hfile. simpl.
  unfold bind at 1, log at 1. done.
Qed.

(** X25.  A readable input is cleaned and written: when the file parses
    and the folder of the output exists or can be created, [clean_csv]
    writes the text of the cleaned frame at the output path, replacing a
    file that is there, returns the statistics of [clean] and logs no
    error. *)
Theorem clean_csv_writes `{TabularIO} (file_path output_path : path) (w : world)
    (content : string) (df : DataFrame) (fs2 : filesystem) :
  w_fs w !! file_path = Some (File content) →
  read_csv content = inr df →
  mkdir_parents (length (parent output_path)) (w_fs w) (parent output_path)
  = Return fs2 →
  is_dir fs2 output_path = false →
  ∃ stats lines,
    clean_csv file_path output_path w
    = (Return stats,
       World (<[output_path := File (to_csv (cleaned_frame df))]> fs2)
             (w_log w ++ lines)) ∧
    Forall (λ line, line.1 ≠ ERROR) lines ∧
    stats !! "initial_rows" = Some (Z.of_nat (len df)) ∧
    stats !! "final_rows" = Some (Z.of_nat (len (cleaned_frame df))) ∧
    stats !! "duplicate_rows_found" = Some (count_true (duplicated df)) ∧
    stats !! "missing_values_found" = Some (isnull_sum_sum df).
Proof.
  intros Hfile Hread Hmk Hout.
  rewrite (clean_csv_valid _ _ _ content) by done.
  set (w0 := World (w_fs w) (w_log w ++ [_])).
  unfold try_except, bind at 1, load, bind at 1, get_fs. simpl.
  rewrite Hfile, Hread. unfold ret at 1, bind at 1.
  destruct (clean_run df w0)
    as (lines1 & stats & -> & Hlines1 & Hrows & _ & Hmissing & Hdup & Hfinal & _).
  unfold bind at 1, ensure_directory, lift_fs. cbn [w_fs w_log w0].
  rewrite Hmk.
  unfold bind at 1, write_text, lift_fs. cbn [w_fs w_log].
  assert (is_dir fs2 (parent output_path) = true) as Hparent
    by (by apply mkdir_parents_effect in Hmk as [? _]).
  assert (match fs2 !! output_path with
          | Some Dir => Raise (IsADirectoryError output_path)
          | _ => if is_dir fs2 (parent output_path)
                 then Return (<[output_path := File (to_csv (cleaned_frame df))]> fs2)
                 else Raise (FileNotFoundError output_path)
          end = Return (<[output_path := File (to_csv (cleaned_frame df))]> fs2))
    as ->.
  { rewrite Hparent. unfold is_dir in Hout.
    by destruct (fs2 !! output_path) as [[]|]. }
  unfold bind at 1.
  edestruct (log_cleaning_stats_run stats (path_name file_path))
    as (lines2 & -> & Hlines2).
  unfold bind, log, ret. simpl.
  exists stats. eexists. split.
  { rewrite <-!app_assoc. reflexivity. }
  split; [|done].
  constructor; [done|]. apply Forall_app. split; [done|].
  apply Forall_app. split.
  - eapply Forall_impl; [exact Hlines2|]. by intros line ->.
  - by repeat constructor.
Qed.

Lemma clean_csv_writes_witness :
  ∃ stats lines,
    clean_csv (H := null_io) ["data"; "in.csv"] ["data"; "out"; "clean.csv"]
      (World fs_data [])
    = (Return stats,
       World (<[ ["data"; "out"; "clean.csv"] := File "" ]>
                (<[ ["data"; "out"] := Dir ]> fs_data))
             ([] ++ lines)).
Proof.
  destruct (clean_csv_writes (H := null_io) ["data"; "in.csv"]
              ["data"; "out"; "clean.csv"] (World fs_data []) "a,b" []
              (<[ ["data"; "out"] := Dir ]> fs_data))
    as (stats & lines & Hrun & _).
  - reflexivity.
  - reflexivity.
  - vm_compute. reflexivity.
  - reflexivity.
  - exists stats, lines. exact Hrun.
Defined.

Lemma mkdir_parents_existing fuel fs p :
  is_dir fs p = true → mkdir_parents fuel fs p = Return fs.
Proof.
  intros Hdir.
  assert (os_mkdir fs p = Raise (FileExistsError p)) as Hmk.
  { unfold os_mkdir. by rewrite (is_dir_exists _ _ Hdir). }
  destruct fuel; simpl; by rewrite Hmk, Hdir.
Qed.

(** X26.  What goes wrong inside [clean_csv] is caught: a file that does
    not parse, and an output path that is a directory, both give the empty
    record and an error line, and the file system is left as it was. *)
Theorem clean_csv_failures `{TabularIO} (file_path output_path : path) (w : world)
    (content : string) :
  w_fs w !! file_path = Some (File content) →
  (∀ err, read_csv content = inl err →
     ∃ start msg,
       clean_csv file_path output_path w
       = (Return ∅, World (w_fs w) (w_log w ++ [(INFO, start); (ERROR, msg)]))) ∧
  (∀ df, read_csv content = inr df →
     is_dir (w_fs w) (parent output_path) = true →
     is_dir (w_fs w) output_path = true →
     ∃ lines msg,
       clean_csv file_path output_path w
       = (Return ∅, World (w_fs w) (w_log w ++ lines ++ [(ERROR, msg)])) ∧
       Forall (λ line, line.1 ≠ ERROR) lines).
Proof.
  intros Hfile. split.
  - intros err Hread. rewrite (clean_csv_valid _ _ _ content) by done.
    unfold try_except, bind at 1, load, bind at 1, get_fs. simpl.
    rewrite Hfile, Hread. unfold raise, bind, log, ret. simpl.
    rewrite <-app_assoc. by eexists _, _.
  - intros df Hread Hparent Hout. rewrite (clean_csv_valid _ _ _ content) by done.
    set (w0 := World (w_fs w) (w_log w ++ [_])).
    unfold try_except, bind at 1, load, bind at 1, get_fs. simpl.
    rewrite Hfile, Hread. unfold ret at 1, bind at 1.
    destruct (clean_run df w0) as (lines1 & stats & -> & Hlines1 & _).
    unfold bind at 1, ensure_directory, lift_fs. cbn [w_fs w_log w0].
    rewrite mkdir_parents_existing by done.
    unfold bind at 1, write_text, lift_fs. cbn [w_fs w_log].
    apply is_dir_lookup in Hout. rewrite Hout.
    unfold bind, log, ret. simpl.
    exists ((INFO, "Starting data cleaning: " +:+ path_name file_path) :: lines1).
    eexists. split.
    { by rewrite <-!app_assoc. }
    by constructor.
Qed.

Lemma clean_csv_failures_witness :
  ∃ lines msg,
    clean_csv (H := null_io) ["data"; "in.csv"] ["data"] (World fs_data [])
    = (Return ∅, World fs_data ([] ++ lines ++ [(ERROR, msg)])).
Proof.
  destruct (clean_csv_failures (H := null_io) ["data"; "in.csv"] ["data"]
              (World fs_data []) "a,b") as [_ Hdir].
  - reflexivity.
  - destruct (Hdir []) as (lines & msg & Hrun & _).
    + reflexivity.
    + reflexivity.
    + reflexivity.
    + by exists lines, msg.
Defined.

(** ** The logging service *)

Lemma LoggerService_fresh :
  LoggerService fresh_service
  = Service (Logger (Some INFO)
               [Handler Console INFO; Handler (LogFile "automation.log") DEBUG])
            true true.
Proof. reflexivity. Qed.

Lemma LoggerService_idemp (s : service) :
  LoggerService (LoggerService s) = LoggerService s.
Proof. by destruct s as [lg [|] [|]]. Qed.

(** X27.  [LoggerService] is set up once: however often it is constructed,
    the logger has level [INFO] and its two handlers, the console at
    [INFO] and [automation.log] at [DEBUG], each once. *)
Theorem logger_service_singleton (n : nat) :
  Nat.iter (S n) LoggerService fresh_service
  = Service (Logger (Some INFO)
               [Handler Console INFO; Handler (LogFile "automation.log") DEBUG])
            true true.
Proof.
  induction n as [|n IH]; [done|].
  change (Nat.iter (S (S n)) LoggerService fresh_service)
    with (LoggerService (Nat.iter (S n) LoggerService fresh_service)).
  by rewrite IH.
Qed.

Lemma service_log_ready (call : level * string) :
  service_log (LoggerService fresh_service) call
  = if bool_decide (call.1 = DEBUG) then []
    else [(Console, call); (LogFile "automation.log", call)].
Proof. by destruct call as [[] msg]. Qed.

(** X28.  Once the service is set up, a call at [INFO], [WARNING] or
    [ERROR] reaches the console and [automation.log], and a call at
    [DEBUG] reaches neither: the level of the logger stops it before the
    handler of the file, set to [DEBUG], is asked.  So both destinations
    receive the calls that are not at [DEBUG], in their order. *)
Theorem debug_calls_are_dropped (calls : list (level * string)) (to : sink) :
  to = Console ∨ to = LogFile "automation.log" →
  written (LoggerService fresh_service) to calls
  = filter (λ call, call.1 ≠ DEBUG) calls.
Proof.
  intros Hto. unfold written.
  induction calls as [|call calls IH]; [done|].
  rewrite bind_cons, filter_app, fmap_app, IH, service_log_ready, filter_cons.
  destruct call as [l msg]. simpl.
  destruct (decide (l = DEBUG)) as [->|Hl].
  - by rewrite decide_False by (by intros ?).
  - rewrite bool_decide_eq_false_2, decide_True by done.
    destruct Hto as [-> | ->]; rewrite !filter_cons; simpl;
      repeat case_decide; done.
Qed.

Lemma debug_calls_are_dropped_witness :
  written (LoggerService fresh_service) (LogFile "automation.log")
    [(INFO, "Moved a.pdf -> documents/a.pdf");
     (DEBUG, "Skipping uncategorized file: notes")]
  = filter (λ call, call.1 ≠ DEBUG)
      [(INFO, "Moved a.pdf -> documents/a.pdf");
       (DEBUG, "Skipping uncategorized file: notes")].
Proof. apply debug_calls_are_dropped. by right. Defined.

(** ** The summary of a run *)

(** X29.  [_log_statistics] writes the total and then one line for each
    category of the statistics, each category once, in increasing order
    of the names; every line is at [INFO]. *)
Theorem log_statistics_lines (stats : gmap string Z) (w : world) :
  ∃ categories,
    _log_statistics stats w
    = (Return tt,
       World (w_fs w)
         (w_log w ++
          (INFO, "Organization complete. Total files moved: " +:+
                 pretty (stats_total stats)) ::
          ((λ category,
              (INFO, "  " +:+ category +:+ ": " +:+
                     pretty (default 0 (stats !! category)) +:+ " files"))
             <$> categories))) ∧
    Sorted String.le categories ∧
    NoDup categories ∧
    ∀ category, category ∈ categories ↔ is_Some (stats !! category).
Proof.
  exists (merge_sort String.le ((map_to_list stats).*1)). split; [|split; [|split]].
  - unfold _log_statistics, bind. unfold log at 1. simpl.
    rewrite log_loop_run. simpl. by rewrite <-app_assoc.
  - apply Sorted_merge_sort, _.
  - rewrite merge_sort_Permutation. apply NoDup_fst_map_to_list.
  - intros category. rewrite merge_sort_Permutation, list_elem_of_fmap. split.
    + intros ([c n] & -> & Hin%elem_of_map_to_list). by exists n.
    + intros [n Hn]. exists (category, n). split; [done|].
      by apply elem_of_map_to_list.
Qed.
